(** * PR Diff Exporter: the extraction, formatting and export pipeline of
      [src/content.ts], embedded as Rocq functions, with the properties the
      specification states about it. *)

From Stdlib Require Import String Ascii List Bool Arith Lia DecimalString.
Import ListNotations.

Local Open Scope string_scope.
Local Open Scope list_scope.
Local Open Scope nat_scope.
Set Warnings "-register-all".

(* ================================================================== *)
(** ** JavaScript strings *)

(** Strings are sequences of code units.  The source only ever searches for
    ASCII text ('.', '/', keywords), which byte-wise search finds at the same
    places whatever the encoding of the other characters. *)
Module JS.

Definition nl : string := String (ascii_of_nat 10) EmptyString.

(** [s.split(sep)] for a one-character separator: never empty, one more
    piece than there are separators. *)
Fixpoint split (sep : ascii) (s : string) : list string :=
  match s with
  | EmptyString => [EmptyString]
  | String c rest =>
      if Ascii.eqb c sep then EmptyString :: split sep rest
      else match split sep rest with
           | [] => [String c EmptyString]
           | piece :: pieces => String c piece :: pieces
           end
  end.

(** [arr[arr.length - 1]] and [arr.pop()]: [None] is [undefined]. *)
Fixpoint pop (l : list string) : option string :=
  match l with
  | [] => None
  | [x] => Some x
  | _ :: l' => pop l'
  end.

(** [arr.join(sep)] *)
Definition join (sep : string) (l : list string) : string := String.concat sep l.

(** [s.includes(k)] *)
Fixpoint includes (k s : string) : bool :=
  String.prefix k s
  || match s with
     | EmptyString => false
     | String _ rest => includes k rest
     end.

(** [s.toLowerCase()], on the ASCII letters. *)
Definition lower (c : ascii) : ascii :=
  let n := nat_of_ascii c in
  if (65 <=? n) && (n <=? 90) then ascii_of_nat (n + 32) else c.

Fixpoint toLowerCase (s : string) : string :=
  match s with
  | EmptyString => EmptyString
  | String c rest => String (lower c) (toLowerCase rest)
  end.

(** [s.trim()], on the ASCII white space and line terminators. *)
Definition isSpace (c : ascii) : bool :=
  let n := nat_of_ascii c in
  ((9 <=? n) && (n <=? 13)) || (n =? 32).

Fixpoint trimStart (s : string) : string :=
  match s with
  | EmptyString => EmptyString
  | String c rest => if isSpace c then trimStart rest else s
  end.

Fixpoint trimEnd (s : string) : string :=
  match s with
  | EmptyString => EmptyString
  | String c rest =>
      match trimEnd rest with
      | EmptyString => if isSpace c then EmptyString else String c EmptyString
      | kept => String c kept
      end
  end.

Definition trim (s : string) : string := trimEnd (trimStart s).

(** A string is falsy exactly when it is empty. *)
Definition nonEmpty (s : string) : bool :=
  match s with EmptyString => false | String _ _ => true end.

(** [a || b] on strings. *)
Definition orElse (a b : string) : string := if nonEmpty a then a else b.

(** Whether the character occurs in the string. *)
Fixpoint occurs (c : ascii) (s : string) : bool :=
  match s with
  | EmptyString => false
  | String d rest => Ascii.eqb d c || occurs c rest
  end.

End JS.

(* ================================================================== *)
(** ** The diff record and the two path helpers *)

Module Hunk.
(** [interface DiffHunk]; an optional flag left out of the object literal
    is [None]. *)
Record DiffHunk : Type := mk {
  before : string;
  after : string;
  filePath : string;
  extension : string;
  baseName : string;
  tooLarge : option bool;
  notInline : option bool;
  isNewFile : option bool
}.
End Hunk.
Abbreviation DiffHunk := Hunk.DiffHunk.

(** Truthiness of an optional boolean: [undefined] and [false] are falsy. *)
Definition truthy (flag : option bool) : bool :=
  match flag with Some true => true | _ => false end.

Definition dot : ascii := ascii_of_nat 46.
Definition slash : ascii := ascii_of_nat 47.

Definition getFileExtension (filePath : string) : string :=
  let parts := JS.split dot filePath in
  if 1 <? length parts
  then match JS.pop parts with Some e => e | None => EmptyString end
  else EmptyString.

Definition getBaseName (filePath : string) : string :=
  match JS.pop (JS.split slash filePath) with
  | Some last => JS.orElse last filePath
  | None => filePath
  end.

(* ================================================================== *)
(** ** Markdown formatter *)

Definition fence : string := "```".

Definition heading (diff : DiffHunk) : string :=
  "# " ++ Hunk.baseName diff ++ JS.nl ++ JS.nl.

Definition msgNotInline : string :=
  "Diff not available inline. Please view the file directly on GitHub.".
Definition msgTooLarge : string :=
  "Diff too large to display on GitHub. Not available for export.".
Definition msgNoChanges : string :=
  "No textual changes, file is binary, or too large to display.".
Definition placeholder : string := "This file did not exist before.".

Definition fenced (tag body : string) : string :=
  fence ++ tag ++ JS.nl ++ body ++ JS.nl ++ fence ++ JS.nl.

Definition createMarkdownContent (diff : DiffHunk) : string :=
  if truthy (Hunk.notInline diff) then
    heading diff ++ msgNotInline
  else if truthy (Hunk.tooLarge diff) then
    heading diff ++ msgTooLarge
  else if truthy (Hunk.isNewFile diff) then
    heading diff ++ "## Before" ++ JS.nl ++ placeholder ++ JS.nl ++ JS.nl
      ++ "## After" ++ JS.nl ++ fenced (Hunk.extension diff) (Hunk.after diff)
  else if String.eqb (Hunk.before diff) EmptyString
          && String.eqb (Hunk.after diff) EmptyString then
    heading diff ++ msgNoChanges
  else
    heading diff ++ "## Before" ++ JS.nl
      ++ fenced (Hunk.extension diff) (Hunk.before diff) ++ JS.nl
      ++ "## After" ++ JS.nl ++ fenced (Hunk.extension diff) (Hunk.after diff).

(* ================================================================== *)
(** ** The rendered page: a document tree and the selectors the source uses *)

Module Dom.

(** A node of the tree: text, or an element with its tag name (lower
    case), its class list and its children in document order. *)
Inductive Node : Type :=
| Text (data : string)
| Elem (tag : string) (classes : list string) (children : list Node).

(** What a selector looks at in an element. *)
Record Head : Type := { htag : string; hclasses : list string }.

(** An element as a query returns it: the element and the heads of its
    ancestors, nearest first (a descendant selector looks at them). *)
Record Element : Type := {
  above : list Head;
  head : Head;
  children : list Node
}.

Fixpoint nodeText (n : Node) : string :=
  match n with
  | Text data => data
  | Elem _ _ kids =>
      (fix all (l : list Node) : string :=
         match l with
         | [] => EmptyString
         | k :: l' => (nodeText k ++ all l')%string
         end) kids
  end.

(** [el.textContent]: the text of all descendants, in document order. *)
Definition textContent (el : Element) : string :=
  String.concat EmptyString (map nodeText (children el)).

(** The element [n] (if it is one) followed by its descendant elements, in
    document order. *)
Fixpoint walk (anc : list Head) (n : Node) : list Element :=
  match n with
  | Text _ => []
  | Elem t cl kids =>
      let h := {| htag := t; hclasses := cl |} in
      {| above := anc; head := h; children := kids |}
        :: (fix all (l : list Node) : list Element :=
              match l with
              | [] => []
              | k :: l' => walk (h :: anc) k ++ all l'
              end) kids
  end.

Definition descendants (el : Element) : list Element :=
  flat_map (walk (head el :: above el)) (children el).

(** Selectors: a type or a class selector; a chain of them under the
    descendant combinator; a comma-separated list of chains. *)
Inductive Simple : Type :=
| Tag (name : string)
| Class (name : string).

Record Complex : Type := {
  within : list Simple;   (* required ancestors, nearest last *)
  subject : Simple
}.

Record Selector : Type := {
  css : string;           (* the selector as the source writes it *)
  alternatives : list Complex
}.

Definition simpleMatches (s : Simple) (h : Head) : bool :=
  match s with
  | Tag name => String.eqb name (htag h)
  | Class name => existsb (String.eqb name) (hclasses h)
  end.

(** [req] lists the required ancestors nearest first. *)
Fixpoint chainMatches (req : list Simple) (anc : list Head) : bool :=
  match req with
  | [] => true
  | r :: req' =>
      (fix find (l : list Head) : bool :=
         match l with
         | [] => false
         | h :: l' => if simpleMatches r h then chainMatches req' l' else find l'
         end) anc
  end.

Definition complexMatches (c : Complex) (el : Element) : bool :=
  simpleMatches (subject c) (head el) && chainMatches (rev (within c)) (above el).

Definition matches (sel : Selector) (el : Element) : bool :=
  existsb (fun c => complexMatches c el) (alternatives sel).

(** [el.querySelectorAll(sel)] and [el.querySelector(sel)] *)
Definition querySelectorAll (sel : Selector) (el : Element) : list Element :=
  filter (matches sel) (descendants el).

Definition querySelector (sel : Selector) (el : Element) : option Element :=
  List.hd_error (querySelectorAll sel el).

Definition one (s : Simple) : Complex := {| within := []; subject := s |}.

(** An element with nothing above it, from a node. *)
Definition root (tag : string) (classes : list string) (kids : list Node) : Element :=
  {| above := []; head := {| htag := tag; hclasses := classes |}; children := kids |}.

End Dom.

(** The selectors of the source. *)
Definition selPathLink : Dom.Selector :=
  {| Dom.css := ".file-info a";
     Dom.alternatives :=
       [ {| Dom.within := [Dom.Class "file-info"]; Dom.subject := Dom.Tag "a" |} ] |}.
Definition selBinary : Dom.Selector :=
  {| Dom.css := ".diff-view-binary, .rendered";
     Dom.alternatives := [Dom.one (Dom.Class "diff-view-binary"); Dom.one (Dom.Class "rendered")] |}.
Definition selInfo : Dom.Selector :=
  {| Dom.css := ".file-info, .file-header";
     Dom.alternatives := [Dom.one (Dom.Class "file-info"); Dom.one (Dom.Class "file-header")] |}.
Definition selLabel : Dom.Selector :=
  {| Dom.css := ".Label--success, .Label";
     Dom.alternatives := [Dom.one (Dom.Class "Label--success"); Dom.one (Dom.Class "Label")] |}.
Definition selControls : Dom.Selector :=
  {| Dom.css := "button, summary";
     Dom.alternatives := [Dom.one (Dom.Tag "button"); Dom.one (Dom.Tag "summary")] |}.
Definition selLinks : Dom.Selector :=
  {| Dom.css := "a"; Dom.alternatives := [Dom.one (Dom.Tag "a")] |}.
Definition selDeletion : Dom.Selector :=
  {| Dom.css := ".blob-code-deletion";
     Dom.alternatives := [Dom.one (Dom.Class "blob-code-deletion")] |}.
Definition selAddition : Dom.Selector :=
  {| Dom.css := ".blob-code-addition";
     Dom.alternatives := [Dom.one (Dom.Class "blob-code-addition")] |}.
Definition selBlobCode : Dom.Selector :=
  {| Dom.css := ".blob-code"; Dom.alternatives := [Dom.one (Dom.Class "blob-code")] |}.
Definition selFile : Dom.Selector :=
  {| Dom.css := ".file"; Dom.alternatives := [Dom.one (Dom.Class "file")] |}.

(** A live element: the page re-renders while the exporter waits, so a
    reference held across a wait shows the element as it is at the time of
    each read.  Time counts the timed waits completed so far. *)
Definition Live : Type := nat -> Dom.Element.

(** A reference that is read at once, before any wait. *)
Definition still (el : Dom.Element) : Live := fun _ => el.

(* ================================================================== *)
(** ** Host calls and the monad of the extractor *)

(** The calls the exporter makes into the browser and its libraries. *)
Inductive HostCall : Type :=
| Query (css : string)          (* querySelector / querySelectorAll *)
| Click (label : string)        (* el.click(), the element named by its text *)
| Sleep (ms : nat)              (* await new Promise(res => setTimeout(res, ms)) *)
| ScrollTo (bottom : bool)      (* window.scrollTo: the bottom, or the top *)
| ZipFolder (name : string)
| ZipFile (name : string)
| GenerateAsync
| SaveAs (name : string)
| ConsoleError
| Alert.

(** What a run of an extractor function yields: its value, the time at
    which it ends and the host calls it made, oldest first. *)
Record Ran (A : Type) : Type := {
  value : A;
  finish : nat;
  calls : list HostCall
}.
Arguments value {A} _.
Arguments finish {A} _.
Arguments calls {A} _.

(** The extractor only reads the section it is given, clicks and waits: its
    functions run from a start time. *)
Definition Probe (A : Type) : Type := nat -> Ran A.

Definition ret {A} (a : A) : Probe A :=
  fun t => {| value := a; finish := t; calls := [] |}.

(** A run that comes after the host calls [cs]. *)
Definition after {A} (cs : list HostCall) (r : Ran A) : Ran A :=
  {| value := value r; finish := finish r; calls := cs ++ calls r |}.

Definition bind {A B} (m : Probe A) (k : A -> Probe B) : Probe B :=
  fun t =>
    let r := m t in
    after (calls r) (k (value r) (finish r)).

Declare Scope probe_scope.
Delimit Scope probe_scope with probe.
Notation "x <- m ;; k" := (bind m (fun x => k))
  (at level 61, m at next level, right associativity) : probe_scope.
Notation "m ;;; k" := (bind m (fun _ => k))
  (at level 61, right associativity) : probe_scope.

Definition querySelectorAll (sel : Dom.Selector) (el : Live) : Probe (list Dom.Element) :=
  fun t => {| value := Dom.querySelectorAll sel (el t); finish := t;
              calls := [Query (Dom.css sel)] |}.

Definition querySelector (sel : Dom.Selector) (el : Live) : Probe (option Dom.Element) :=
  fun t => {| value := Dom.querySelector sel (el t); finish := t;
              calls := [Query (Dom.css sel)] |}.

(** Reading the [textContent] property of a live element. *)
Definition textContentOf (el : Live) : Probe string :=
  fun t => {| value := Dom.textContent (el t); finish := t; calls := [] |}.

Definition click (el : Dom.Element) : Probe unit :=
  fun t => {| value := tt; finish := t; calls := [Click (Dom.textContent el)] |}.

Definition sleep (ms : nat) : Probe unit :=
  fun t => {| value := tt; finish := S t; calls := [Sleep ms] |}.

(* ================================================================== *)
(** ** Diff extractor *)

Local Open Scope probe_scope.

Definition isBinaryFile (file : Live) : Probe bool :=
  marker <- querySelector selBinary file ;;
  ret (match marker with Some _ => true | None => false end).

Definition isNewFile (file : Live) : Probe bool :=
  info <- querySelector selInfo file ;;
  match info with
  | None => ret false
  | Some info =>
      badge <- querySelector selLabel (still info) ;;
      let label :=
        match badge with
        | Some b => JS.toLowerCase (Dom.textContent b)
        | None => EmptyString
        end in
      if JS.includes "new file" label || JS.includes "added" label then ret true
      else if JS.includes "new file" (JS.toLowerCase (Dom.textContent info)) then ret true
      else ret false
  end.

Inductive LoadResult : Type := Loaded | TooLarge | NotInline.

Definition keywords : list string :=
  [ "load diff"; "view file"; "show diff"; "display the diff";
    "load this diff"; "show this diff" ].

(** [el => keywords.some(k => (el.textContent?.toLowerCase() || '').includes(k))] *)
Definition mentionsKeyword (el : Dom.Element) : bool :=
  let txt := JS.toLowerCase (Dom.textContent el) in
  existsb (fun k => JS.includes k txt) keywords.

Definition tooLargeToDisplay : string := "diff is too large to display".
Definition tooLargeToRender : string := "too large to render".

Definition isEmpty {A} (l : list A) : bool :=
  match l with [] => true | _ :: _ => false end.

(** The [for] loop of [tryLoadLargeDiff], with [attemptsLeft = 5 - attempt];
    it yields the flags [(loaded, notInline)] as they are when it is left. *)
Fixpoint tryLoadLoop (file : Live) (attemptsLeft : nat) : Probe (bool * bool) :=
  match attemptsLeft with
  | 0 => ret (false, false)
  | S n =>
      controls <- querySelectorAll selControls file ;;
      let btn := find mentionsKeyword controls in
      links <- querySelectorAll selLinks file ;;
      let aLink := find mentionsKeyword links in
      match btn, aLink with
      | None, Some _ => ret (false, true)
      | Some b, _ =>
          click b ;;; sleep 1200 ;;; tryLoadLoop file n
      | None, None =>
          beforeBlocks <- querySelectorAll selDeletion file ;;
          afterBlocks <- querySelectorAll selAddition file ;;
          if negb (isEmpty beforeBlocks) || negb (isEmpty afterBlocks) then ret (true, false)
          else
            txt <- textContentOf file ;;
            if JS.includes tooLargeToDisplay (JS.toLowerCase txt) then ret (false, false)
            else sleep 600 ;;; tryLoadLoop file n
      end
  end.

Definition tryLoadLargeDiff (file : Live) : Probe LoadResult :=
  flags <- tryLoadLoop file 5 ;;
  let '(loaded, notInline) := flags in
  if notInline then ret NotInline
  else if loaded then ret Loaded
  else ret TooLarge.

Definition linesOf (blocks : list Dom.Element) : string :=
  JS.join JS.nl (map Dom.textContent blocks).

Definition isTooLarge (r : LoadResult) : bool :=
  match r with TooLarge => true | _ => false end.
Definition isNotInline (r : LoadResult) : bool :=
  match r with NotInline => true | _ => false end.

Definition processDiff (file : Live) : Probe (option DiffHunk) :=
  link <- querySelector selPathLink file ;;
  match option_map (fun a => JS.trim (Dom.textContent a)) link with
  | None => ret None
  | Some filePath =>
      if negb (JS.nonEmpty filePath) then ret None
      else
        binary <- isBinaryFile file ;;
        if binary then
          ret (Some (Hunk.mk EmptyString EmptyString filePath
                       (getFileExtension filePath) (getBaseName filePath)
                       None None None))
        else
          isNew <- isNewFile file ;;
          beforeBlocks <- querySelectorAll selDeletion file ;;
          afterBlocks <- querySelectorAll selAddition file ;;
          if isNew then
            allLines <- querySelectorAll selBlobCode file ;;
            ret (Some (Hunk.mk placeholder (linesOf allLines) filePath
                         (getFileExtension filePath) (getBaseName filePath)
                         (Some false) (Some false) (Some true)))
          else
            if isEmpty beforeBlocks && isEmpty afterBlocks then
              loadResult <- tryLoadLargeDiff file ;;
              beforeBlocks <- querySelectorAll selDeletion file ;;
              afterBlocks <- querySelectorAll selAddition file ;;
              txt <- textContentOf file ;;
              let tooLarge :=
                isTooLarge loadResult
                && (JS.includes tooLargeToDisplay (JS.toLowerCase txt)
                    || JS.includes tooLargeToRender (JS.toLowerCase txt)) in
              let notInline := isNotInline loadResult in
              ret (Some (Hunk.mk (linesOf beforeBlocks) (linesOf afterBlocks) filePath
                           (getFileExtension filePath) (getBaseName filePath)
                           (Some tooLarge) (Some notInline) (Some false)))
            else
              ret (Some (Hunk.mk (linesOf beforeBlocks) (linesOf afterBlocks) filePath
                           (getFileExtension filePath) (getBaseName filePath)
                           (Some false) (Some false) (Some false)))
  end.

Local Close Scope probe_scope.

(* ================================================================== *)
(** ** The export run: page, exporter state, exceptions *)

(** The page the exporter runs in. *)
Record Page : Type := {
  document : Live;
  (** [document.querySelectorAll('.file')] at a time: the sections as live
      references, so that each can be read again after later waits. *)
  sections : nat -> list Live;
  (** [window.location.pathname] *)
  pathname : string
}.

Inductive Display : Type := DisplayNone | DisplayBlock.

(** [progressBar.textContent]: a message, or the default text
    [Processing files: P% (current/total)], whose [P] is floating-point
    arithmetic and is kept as the two numbers it is computed from. *)
Inductive ProgressText : Type :=
| Message (text : string)
| Processing (current total : nat).

(** A zip archive: entries by name, in the order they were first written
    (JSZip keeps them in an object keyed by name).  Directory entries are
    left out. *)
Definition Archive : Type := list (string * string).

Record World : Type := {
  clock : nat;                     (* timed waits completed *)
  trace : list HostCall;           (* host calls made, oldest first *)
  buttonDisabled : bool;           (* exportButton.disabled *)
  progressDisplay : Display;       (* progressBar.style.display *)
  progressText : ProgressText;
  zipFiles : Archive;              (* this.zip *)
  downloads : list (string * Archive)  (* what saveAs was given *)
}.

Definition withClock (t : nat) (w : World) : World :=
  {| clock := t; trace := trace w; buttonDisabled := buttonDisabled w;
     progressDisplay := progressDisplay w; progressText := progressText w;
     zipFiles := zipFiles w; downloads := downloads w |}.
Definition withTrace (tr : list HostCall) (w : World) : World :=
  {| clock := clock w; trace := tr; buttonDisabled := buttonDisabled w;
     progressDisplay := progressDisplay w; progressText := progressText w;
     zipFiles := zipFiles w; downloads := downloads w |}.
Definition withDisabled (b : bool) (w : World) : World :=
  {| clock := clock w; trace := trace w; buttonDisabled := b;
     progressDisplay := progressDisplay w; progressText := progressText w;
     zipFiles := zipFiles w; downloads := downloads w |}.
Definition withDisplay (d : Display) (w : World) : World :=
  {| clock := clock w; trace := trace w; buttonDisabled := buttonDisabled w;
     progressDisplay := d; progressText := progressText w;
     zipFiles := zipFiles w; downloads := downloads w |}.
Definition withText (p : ProgressText) (w : World) : World :=
  {| clock := clock w; trace := trace w; buttonDisabled := buttonDisabled w;
     progressDisplay := progressDisplay w; progressText := p;
     zipFiles := zipFiles w; downloads := downloads w |}.
Definition withZip (z : Archive) (w : World) : World :=
  {| clock := clock w; trace := trace w; buttonDisabled := buttonDisabled w;
     progressDisplay := progressDisplay w; progressText := progressText w;
     zipFiles := z; downloads := downloads w |}.
Definition withDownloads (d : list (string * Archive)) (w : World) : World :=
  {| clock := clock w; trace := trace w; buttonDisabled := buttonDisabled w;
     progressDisplay := progressDisplay w; progressText := progressText w;
     zipFiles := zipFiles w; downloads := d |}.

(** The state the constructor leaves: a new JSZip, the progress bar hidden,
    the button enabled. *)
Definition constructed : World :=
  {| clock := 0; trace := []; buttonDisabled := false;
     progressDisplay := DisplayNone; progressText := Message EmptyString;
     zipFiles := []; downloads := [] |}.

(** [files[name] = entry]: a name already present keeps its place. *)
Fixpoint zipPut (name content : string) (z : Archive) : Archive :=
  match z with
  | [] => [(name, content)]
  | (n, c) :: rest =>
      if String.eqb n name then (n, content) :: rest
      else (n, c) :: zipPut name content rest
  end.

(** A statement returns a value or throws; the error is identified by the
    index of the host call that raised it. *)
Inductive Outcome (A : Type) : Type :=
| Returned (a : A)
| Thrown (site : nat).
Arguments Returned {A} _.
Arguments Thrown {A} _.

Definition Run (A : Type) : Type := World -> Outcome A * World.

Definition retR {A} (a : A) : Run A := fun w => (Returned a, w).

Definition bindR {A B} (m : Run A) (k : A -> Run B) : Run B :=
  fun w =>
    match m w with
    | (Returned a, w') => k a w'
    | (Thrown e, w') => (Thrown e, w')
    end.

Declare Scope run_scope.
Delimit Scope run_scope with run.
Notation "x <- m ;; k" := (bindR m (fun x => k))
  (at level 61, m at next level, right associativity) : run_scope.
Notation "m ;;; k" := (bindR m (fun _ => k))
  (at level 61, right associativity) : run_scope.

Definition modify (f : World -> World) : Run unit := fun w => (Returned tt, f w).

(** [try { body } catch (e) { handler } finally { finalizer }] *)
Definition tryCatchFinally {A} (body : Run A) (handler : nat -> Run A)
    (finalizer : Run unit) : Run A :=
  fun w =>
    let (o, w1) := body w in
    let (o', w2) :=
      match o with
      | Returned a => (Returned a, w1)
      | Thrown e => handler e w1
      end in
    match finalizer w2 with
    | (Returned _, w3) => (o', w3)
    | (Thrown e, w3) => (Thrown e, w3)
    end.

Definition maxTries : nat := 50.

(** [/load more|show more|expand/.test(el.textContent?.toLowerCase() || '')] *)
Definition wantsMore (el : Dom.Element) : bool :=
  let txt := JS.toLowerCase (Dom.textContent el) in
  JS.includes "load more" txt || JS.includes "show more" txt || JS.includes "expand" txt.

Definition decimal (n : nat) : string := NilEmpty.string_of_uint (Nat.to_uint n).

(** [arr[i]] inside a template literal: a missing element prints as
    [undefined]. *)
Definition segment (i : nat) (parts : list string) : string :=
  nth i parts "undefined".

Section Exporter.

(** Any host call may throw: [faults n] tells whether the [n]-th host
    call of the session (counting from 0) does. *)
Variable faults : nat -> bool.
Variable page : Page.

Local Open Scope run_scope.

Definition host (c : HostCall) : Run unit :=
  fun w =>
    let n := length (trace w) in
    let w' := withTrace (trace w ++ [c]) w in
    if faults n then (Thrown n, w') else (Returned tt, w').

(** The host calls of an extractor function, made one after the other;
    each completed wait advances the clock. *)
Fixpoint replay (script : list HostCall) : Run unit :=
  match script with
  | [] => retR tt
  | c :: rest =>
      host c ;;;
      match c with
      | Sleep _ => modify (fun w => withClock (S (clock w)) w)
      | _ => retR tt
      end ;;;
      replay rest
  end.

Definition liftP {A} (p : Probe A) : Run A :=
  fun w =>
    let r := p (clock w) in
    (replay (calls r) ;;; retR (value r)) w.

Fixpoint forEach {A} (l : list A) (f : A -> Run unit) : Run unit :=
  match l with
  | [] => retR tt
  | x :: l' => f x ;;; forEach l' f
  end.

Definition updateProgress (current total : nat) (message : option string) : Run unit :=
  modify (fun w =>
    withText
      match message with
      | Some m => if JS.nonEmpty m then Message m else Processing current total
      | None => Processing current total
      end
      (withDisplay DisplayBlock w)).

(** [document.querySelectorAll('.file')] *)
Definition queryFiles : Run (list Live) :=
  host (Query (Dom.css selFile)) ;;;
  fun w => (Returned (sections page (clock w)), w).

(** The [while] loop of [loadAllDiffs], with [triesLeft = maxTries - tries]. *)
Fixpoint loadLoop (triesLeft lastFileCount stableCount : nat) : Run unit :=
  match triesLeft with
  | 0 => retR tt
  | S n =>
      host (ScrollTo true) ;;;
      controls <- liftP (querySelectorAll selControls (document page)) ;;
      forEach (filter wantsMore controls) (fun btn => liftP (click btn)) ;;;
      liftP (sleep 800) ;;;
      files <- queryFiles ;;
      let stableCount :=
        if length files =? lastFileCount then S stableCount else 0 in
      let lastFileCount := length files in
      updateProgress lastFileCount 0
        (Some ("Loading all diffs... (" ++ decimal lastFileCount ++ " files)")%string) ;;;
      if 3 <=? stableCount then retR tt
      else loadLoop n lastFileCount stableCount
  end.

Definition loadAllDiffs : Run unit :=
  loadLoop maxTries 0 0 ;;;
  host (ScrollTo false) ;;;
  modify (withDisplay DisplayNone).

(** The [for ... of] loop of [exportDiffs]. *)
Fixpoint exportLoop (files : list Live) (totalFiles processedFiles : nat) : Run unit :=
  match files with
  | [] => retR tt
  | file :: rest =>
      diff <- liftP (processDiff file) ;;
      match diff with
      | Some diff =>
          let markdownContent := createMarkdownContent diff in
          let name := ("diffs/" ++ Hunk.baseName diff ++ ".md")%string in
          host (ZipFile name) ;;;
          modify (fun w => withZip (zipPut name markdownContent (zipFiles w)) w)
      | None => retR tt
      end ;;;
      updateProgress (S processedFiles) totalFiles None ;;;
      exportLoop rest totalFiles (S processedFiles)
  end.

Definition exportBody : Run unit :=
  files <- queryFiles ;;
  host (ZipFolder "diffs") ;;;
  exportLoop files (length files) 0 ;;;
  host GenerateAsync ;;;
  zipBlob <- (fun w => (Returned (zipFiles w), w)) ;;
  let parts := JS.split slash (pathname page) in
  let name := (segment 2 parts ++ "-pr" ++ segment 4 parts ++ "-diffs.zip")%string in
  host (SaveAs name) ;;;
  modify (fun w => withDownloads (downloads w ++ [(name, zipBlob)]) w).

Definition exportDiffs : Run unit :=
  tryCatchFinally exportBody
    (fun _ => host ConsoleError ;;; host Alert)
    (modify (fun w => withDisplay DisplayNone (withDisabled false w))).

Definition handleExportClick : Run unit :=
  modify (withDisabled true) ;;;
  updateProgress 0 0 (Some "Loading all diffs...") ;;;
  loadAllDiffs ;;;
  exportDiffs.

End Exporter.

(** A session in which no host call throws. *)
Definition noFaults : nat -> bool := fun _ => false.

(* ================================================================== *)
(** ** Vocabulary of the statements *)

(** How often a run of the extractor started an attempt of the load-diff
    sub-protocol: every attempt begins by looking for a control. *)
Definition isControlQuery (c : HostCall) : bool :=
  match c with Query css => String.eqb css (Dom.css selControls) | _ => false end.
Definition attempts (cs : list HostCall) : nat := length (filter isControlQuery cs).

(** How many timed waits there are among host calls, and how many of a
    given length. *)
Definition isSleep (c : HostCall) : bool :=
  match c with Sleep _ => true | _ => false end.
Definition waits (cs : list HostCall) : nat := length (filter isSleep cs).
Definition isNap (ms : nat) (c : HostCall) : bool :=
  match c with Sleep m => m =? ms | _ => false end.
Definition naps (ms : nat) (cs : list HostCall) : nat := length (filter (isNap ms) cs).


(** What one attempt of the load-diff sub-protocol finds in the section as
    it is at that moment. *)
Definition control (el : Dom.Element) : option Dom.Element :=
  find mentionsKeyword (Dom.querySelectorAll selControls el).
Definition navLink (el : Dom.Element) : option Dom.Element :=
  find mentionsKeyword (Dom.querySelectorAll selLinks el).
Definition hasLines (el : Dom.Element) : bool :=
  negb (isEmpty (Dom.querySelectorAll selDeletion el))
  || negb (isEmpty (Dom.querySelectorAll selAddition el)).
Definition absent {A} (o : option A) : bool :=
  match o with None => true | Some _ => false end.

(** A keyword matches a navigation link and no button or summary. *)
Definition linkOnly (el : Dom.Element) : bool :=
  absent (control el) && negb (absent (navLink el)).
(** No keyword matches anything, and marked lines are there. *)
Definition showsLines (el : Dom.Element) : bool :=
  absent (control el) && absent (navLink el) && hasLines el.
(** No keyword matches anything, no marked lines, and the too-large text. *)
Definition givesUp (el : Dom.Element) : bool :=
  absent (control el) && absent (navLink el) && negb (hasLines el)
  && JS.includes tooLargeToDisplay (JS.toLowerCase (Dom.textContent el)).
(** The attempt ends in a wait and another attempt follows. *)
Definition retries (el : Dom.Element) : bool :=
  negb (linkOnly el) && negb (showsLines el) && negb (givesUp el).

(** The section counts the page loader observes from time [t0] on:
    observation [0] is the initial [lastFileCount], observation [k] is made
    after the [k]-th wait. *)
Definition observed (page : Page) (t0 k : nat) : nat :=
  match k with
  | 0 => 0
  | S _ => length (sections page (t0 + k))
  end.

(** For how many observations in a row, up to the [k]-th, the count has
    been the same as at the observation before. *)
Fixpoint streak (page : Page) (t0 k : nat) : nat :=
  match k with
  | 0 => 0
  | S k' =>
      if observed page t0 (S k') =? observed page t0 k' then S (streak page t0 k')
      else 0
  end.

(** The iterations of the loop of [loadAllDiffs]: each makes one wait of
    800 ms. *)
Definition iterations (page : Page) (w : World) : nat :=
  naps 800 (trace (snd (loadAllDiffs noFaults page w))) - naps 800 (trace w).

(** The records the extractor yields for sections taken in order, each
    started when the one before is done. *)
Fixpoint extractAll (files : list Live) (t : nat) : list (option DiffHunk) :=
  match files with
  | [] => []
  | file :: rest =>
      let r := processDiff file t in
      value r :: extractAll rest (finish r)
  end.

(** The archive entry of a record. *)
Definition entryOf (diff : DiffHunk) : string * string :=
  (("diffs/" ++ Hunk.baseName diff ++ ".md")%string, createMarkdownContent diff).

(** Writing an entry into an archive. *)
Definition putEntry (z : Archive) (e : string * string) : Archive :=
  zipPut (fst e) (snd e) z.

(** The exporter at rest: the button enabled, the progress bar hidden. *)
Definition idle (w : World) : Prop :=
  buttonDisabled w = false /\ progressDisplay w = DisplayNone.

(** The state in which [handleExportClick] calls [loadAllDiffs]. *)
Definition clicked (w : World) : World :=
  withText (Message "Loading all diffs...") (withDisplay DisplayBlock (withDisabled true w)).

(** What a run changes in the exporter's state when it only makes the host
    calls [cs]. *)
Definition madeCalls (cs : list HostCall) (w w' : World) : Prop :=
  clock w' = clock w + waits cs
  /\ trace w' = trace w ++ cs
  /\ buttonDisabled w' = buttonDisabled w
  /\ progressDisplay w' = progressDisplay w
  /\ progressText w' = progressText w
  /\ zipFiles w' = zipFiles w
  /\ downloads w' = downloads w.

(** An extractor function keeps time: it ends as many waits after its
    start as it has made. *)
Definition timed {A} (m : Probe A) : Prop :=
  forall t, finish (m t) = t + waits (calls (m t)).

(** The file path a section's path link gives. *)
Definition pathOf (link : Dom.Element) : string := JS.trim (Dom.textContent link).

(** The queries that open every attempt of the load-diff sub-protocol, and
    the queries for marked lines. *)
Definition probeCalls : list HostCall :=
  [Query (Dom.css selControls); Query (Dom.css selLinks)].
Definition lineCalls : list HostCall :=
  [Query (Dom.css selDeletion); Query (Dom.css selAddition)].

(** The path has a '.' somewhere after its first character. *)
Definition dotPastFirst (p : string) : bool :=
  match p with
  | EmptyString => false
  | String _ rest => JS.occurs dot rest
  end.

(* ================================================================== *)
(** ** Sample sections and pages *)

Module Sample.
Import Dom.

Definition line (cls txt : string) : Node :=
  Elem "td" ["blob-code"; cls] [Text txt].

Definition header (path : string) (extra : list Node) : Node :=
  Elem "div" ["file-header"]
    [Elem "div" ["file-info"] (Elem "a" [] [Text path] :: extra)].

Definition section (kids : list Node) : Element := root "div" ["file"] kids.

(** [src/app.py]: one deletion, one addition. *)
Definition appPy : Element :=
  section [header "src/app.py" [];
           line "blob-code-deletion" "foo"; line "blob-code-addition" "bar"].


(** A new [README.md] with two lines. *)
Definition readme : Element :=
  section [header "README.md" [Elem "span" ["Label"] [Text "New file"]];
           line "blob-code-addition" "# Title"; line "blob-code-addition" "body"].



(** A section not rendered yet, with a button that loads it. *)
Definition collapsed : Element :=
  section [header "big.sql" []; Elem "button" [] [Text "Load diff"]].
Definition expanded : Element :=
  section [header "big.sql" []; line "blob-code-addition" "select 1"].
Definition lazySection : Live :=
  fun t => match t with 0 => collapsed | _ => expanded end.

(** A section that only links to the file. *)
Definition linked : Element :=
  section [header "data.csv" [Elem "a" [] [Text "View file"]]].

(** A section that never shows anything. *)
Definition blank : Element := section [header "empty.txt" []].

(** A section that says it cannot be rendered. *)
Definition oversized : Element :=
  section [header "dump.json" [];
           Elem "div" ["data"] [Text "Sorry, this diff is too large to render."]].

Definition html (kids : list Node) : Element := root "html" [] kids.

Definition pageOf (files : nat -> list Live) : Page :=
  {| document := still (html []); sections := files;
     pathname := "/octo/repo/pull/12/files" |}.

Definition twoFiles : Page := pageOf (fun _ => [still appPy; still readme]).
(** One more section at every observation. *)
Definition growing : Page := pageOf (fun t => repeat (still appPy) t).
(** Two sections from the second observation on. *)
Definition settling : Page :=
  pageOf (fun t => repeat (still appPy) (Nat.min t 2)).

(** A changed file whose name has the words [new file], and no label. *)
Definition newFileNotes : Element :=
  section [header "notes/New File.md" [];
           line "blob-code-deletion" "old"; line "blob-code-addition" "new"].


(** The first host call of the session throws. *)
Definition firstCallThrows : nat -> bool := fun n => n =? 0.
(** The host call number 20 throws: with two settled sections that is a
    query of the extractor, inside [exportDiffs]. *)
Definition extractionThrows : nat -> bool := fun n => n =? 20.
End Sample.

(* ================================================================== *)
(** ** Vocabulary of the further properties *)

(** Whether a section has a link that gives a non-blank file path. *)
Definition hasPath (el : Dom.Element) : bool :=
  match Dom.querySelector selPathLink el with
  | Some link => JS.nonEmpty (pathOf link)
  | None => false
  end.


(** What holds of every record the extractor makes: the path is not empty,
    the extension and the base name are those of the path, and at most one
    of the three flags is set. *)
Definition flagsSet (diff : DiffHunk) : nat :=
  Nat.b2n (truthy (Hunk.tooLarge diff))
  + Nat.b2n (truthy (Hunk.notInline diff))
  + Nat.b2n (truthy (Hunk.isNewFile diff)).

Definition wellFormed (diff : DiffHunk) : Prop :=
  JS.nonEmpty (Hunk.filePath diff) = true
  /\ Hunk.extension diff = getFileExtension (Hunk.filePath diff)
  /\ Hunk.baseName diff = getBaseName (Hunk.filePath diff)
  /\ flagsSet diff <= 1.

(** A property of the value of an extractor function, whenever it starts. *)
Definition yields {A} (P : A -> Prop) (m : Probe A) : Prop :=
  forall t, P (value (m t)).

(** The text of the section says that the diff is too large. *)
Definition saysTooLarge (el : Dom.Element) : bool :=
  JS.includes tooLargeToDisplay (JS.toLowerCase (Dom.textContent el))
  || JS.includes tooLargeToRender (JS.toLowerCase (Dom.textContent el)).

(** The milliseconds of the timed waits among host calls. *)
Definition sleptMs (cs : list HostCall) : nat :=
  list_sum (map (fun c => match c with Sleep ms => ms | _ => 0 end) cs).

(** The labels of the elements clicked. *)
Definition clickedLabels (cs : list HostCall) : list string :=
  flat_map (fun c => match c with Click label => [label] | _ => [] end) cs.


(** A relation between the state before and after that every run of a
    function keeps. *)
Definition keeps {A} (R : World -> World -> Prop) (m : Run A) : Prop :=
  forall w, R w (snd (m w)).

(** The archive still has the entries it had, under their names and in
    their order, possibly followed by new ones. *)
Definition namesKept (w w' : World) : Prop :=
  exists added, map fst (zipFiles w') = map fst (zipFiles w) ++ added.

(** What was saved before is still there, possibly followed by more. *)
Definition savedKept (w w' : World) : Prop :=
  exists added, downloads w' = downloads w ++ added.

(** The host calls made before are still in the log, followed by the new
    ones. *)
Definition logKept (w w' : World) : Prop :=
  exists added, trace w' = trace w ++ added.

(** Neither the control, nor the archive, nor the saved files changed. *)
Definition untouched (w w' : World) : Prop :=
  buttonDisabled w' = buttonDisabled w
  /\ zipFiles w' = zipFiles w
  /\ downloads w' = downloads w.

(** Nothing was saved. *)
Definition nothingSaved (w w' : World) : Prop := downloads w' = downloads w.

(** The name [exportDiffs] saves the archive under. *)
Definition archiveName (pathname : string) : string :=
  let parts := JS.split slash pathname in
  (segment 2 parts ++ "-pr" ++ segment 4 parts ++ "-diffs.zip")%string.

(** The records among the results of the extractor. *)
Fixpoint produced (results : list (option DiffHunk)) : list DiffHunk :=
  match results with
  | [] => []
  | Some diff :: rest => diff :: produced rest
  | None :: rest => produced rest
  end.




(** The host calls of the page loader: scrolling, queries, clicks and waits
    of 800 ms. *)
Definition isLoaderCall (c : HostCall) : bool :=
  match c with
  | ScrollTo _ | Query _ | Click _ => true
  | Sleep ms => ms =? 800
  | _ => false
  end.

(** The message the page loader shows for a section count. *)
Definition loadingMessage (count : nat) : ProgressText :=
  Message ("Loading all diffs... (" ++ decimal count ++ " files)")%string.

(* ================================================================== *)
(** ** Proof steps *)

(** Projections of a run that comes after host calls. *)
Ltac probe_simpl :=
  repeat match goal with
    | |- context [value (after ?cs ?r)] => change (value (after cs r)) with (value r)
    | |- context [finish (after ?cs ?r)] => change (finish (after cs r)) with (finish r)
    | |- context [calls (after ?cs ?r)] => change (calls (after cs r)) with (cs ++ calls r)
    end;
  cbn [ret querySelector querySelectorAll textContentOf click sleep
       value finish calls].

(** One statement of an extractor function. *)
Ltac probe_step :=
  match goal with
  | |- context [@bind ?A ?B ?m ?k ?t] =>
      change (@bind A B m k t) with (after (calls (m t)) (k (value (m t)) (finish (m t))))
  end;
  probe_simpl.

(** The two queries that open an attempt of the load-diff sub-protocol. *)
Ltac unfold_attempt file t :=
  cbn [tryLoadLoop]; do 2 probe_step;
  change (find mentionsKeyword (Dom.querySelectorAll selControls (file t)))
    with (control (file t));
  change (find mentionsKeyword (Dom.querySelectorAll selLinks (file t)))
    with (navLink (file t)).

Create HintDb timed.

(** [timed] for a function built from timed statements; [bind_rule] is the
    rule for a sequence. *)
Ltac timed_with bind_rule :=
  repeat first
    [ solve [auto with timed]
    | apply bind_rule; [|intro]
    | match goal with
      | |- timed (match ?x with _ => _ end) => destruct x
      end ].

(* ================================================================== *)
(** ** Splitting paths *)

Section Split.
Variable sep : ascii.

Lemma split_not_nil (s : string) : JS.split sep s <> [].
Proof.
  destruct s as [|c s]; simpl; [discriminate|].
  destruct (Ascii.eqb c sep); [discriminate|].
  destruct (JS.split sep s); discriminate.
Qed.

Lemma pop_cons (x : string) (l : list string) :
  l <> [] -> JS.pop (x :: l) = JS.pop l.
Proof. destruct l; [congruence | reflexivity]. Qed.

(** A string without the separator is one piece. *)
Lemma split_whole (s : string) :
  JS.occurs sep s = false -> JS.split sep s = [s].
Proof.
  induction s as [|c s IH]; simpl; intros H; [reflexivity|].
  apply orb_false_iff in H as [Hc Hs].
  rewrite Hc, (IH Hs). reflexivity.
Qed.

(** A separator makes at least two pieces. *)
Lemma split_two (pre last : string) :
  1 < length (JS.split sep (pre ++ String sep last)).
Proof.
  induction pre as [|d pre IH]; simpl.
  - rewrite Ascii.eqb_refl. simpl.
    pose proof (split_not_nil last).
    destruct (JS.split sep last); [congruence | simpl; lia].
  - destruct (Ascii.eqb d sep); simpl.
    + destruct (JS.split sep (pre ++ String sep last)); simpl in *; lia.
    + destruct (JS.split sep (pre ++ String sep last)); simpl in *; lia.
Qed.

(** The last piece is what follows the last separator. *)
Lemma pop_split_last (pre last : string) :
  JS.occurs sep last = false ->
  JS.pop (JS.split sep (pre ++ String sep last)) = Some last.
Proof.
  intros H. induction pre as [|c pre IH]; simpl.
  - rewrite Ascii.eqb_refl, (split_whole _ H). reflexivity.
  - destruct (Ascii.eqb c sep).
    + rewrite pop_cons by apply split_not_nil. exact IH.
    + destruct (JS.split sep (pre ++ String sep last)) as [|p ps] eqn:E.
      * now apply split_not_nil in E.
      * destruct ps as [|p' ps]; [|exact IH].
        simpl in IH. injection IH as ->.
        exfalso.
        pose proof (split_two pre last) as L.
        rewrite E in L. simpl in L. lia.
Qed.

End Split.

(* ================================================================== *)
(** ** The formatter and the path helpers *)

(** C1: the formatter applies a fixed precedence, first match wins:
    not-inline gives the heading and the view-on-GitHub message; otherwise
    too-large gives the heading and the not-available message; otherwise
    new-file gives the heading, a Before section with the placeholder and an
    After block fenced with the extension ([fenced tag body] is the block
    opened by three backquotes and [tag], closed by three backquotes); otherwise a record whose before
    and after are both empty gives the heading and the no-textual-changes
    message; every other record gives the heading and fenced Before and
    After blocks.  For base name app.py, extension py, before foo, after bar
    and no flag set the output is the document of the scenario. *)
Theorem createMarkdownContent_precedence (diff : DiffHunk) :
  (truthy (Hunk.notInline diff) = true ->
   createMarkdownContent diff = (heading diff ++ msgNotInline)%string)
  /\ (truthy (Hunk.notInline diff) = false ->
      truthy (Hunk.tooLarge diff) = true ->
      createMarkdownContent diff = (heading diff ++ msgTooLarge)%string)
  /\ (truthy (Hunk.notInline diff) = false ->
      truthy (Hunk.tooLarge diff) = false ->
      truthy (Hunk.isNewFile diff) = true ->
      createMarkdownContent diff =
        (heading diff ++ "## Before" ++ JS.nl ++ placeholder ++ JS.nl ++ JS.nl
           ++ "## After" ++ JS.nl
           ++ fenced (Hunk.extension diff) (Hunk.after diff))%string)
  /\ (truthy (Hunk.notInline diff) = false ->
      truthy (Hunk.tooLarge diff) = false ->
      truthy (Hunk.isNewFile diff) = false ->
      Hunk.before diff = EmptyString -> Hunk.after diff = EmptyString ->
      createMarkdownContent diff = (heading diff ++ msgNoChanges)%string)
  /\ (truthy (Hunk.notInline diff) = false ->
      truthy (Hunk.tooLarge diff) = false ->
      truthy (Hunk.isNewFile diff) = false ->
      Hunk.before diff <> EmptyString \/ Hunk.after diff <> EmptyString ->
      createMarkdownContent diff =
        (heading diff
           ++ "## Before" ++ JS.nl
           ++ fenced (Hunk.extension diff) (Hunk.before diff) ++ JS.nl
           ++ "## After" ++ JS.nl
           ++ fenced (Hunk.extension diff) (Hunk.after diff))%string)
  /\ (Hunk.baseName diff = "app.py" -> Hunk.extension diff = "py" ->
      Hunk.before diff = "foo" -> Hunk.after diff = "bar" ->
      truthy (Hunk.notInline diff) = false ->
      truthy (Hunk.tooLarge diff) = false ->
      truthy (Hunk.isNewFile diff) = false ->
      createMarkdownContent diff =
        ("# app.py" ++ JS.nl ++ JS.nl
           ++ "## Before" ++ JS.nl ++ "```py" ++ JS.nl ++ "foo" ++ JS.nl ++ "```" ++ JS.nl
           ++ JS.nl
           ++ "## After" ++ JS.nl ++ "```py" ++ JS.nl ++ "bar" ++ JS.nl ++ "```" ++ JS.nl)%string).
Proof.
  unfold createMarkdownContent.
  repeat split.
  - now intros ->.
  - now intros -> ->.
  - now intros -> -> ->.
  - now intros -> -> -> -> ->.
  - intros -> -> -> H.
    destruct (String.eqb_spec (Hunk.before diff) EmptyString) as [Eb|Nb];
      destruct (String.eqb_spec (Hunk.after diff) EmptyString) as [Ea|Na];
      simpl; try reflexivity.
    destruct H; contradiction.
  - unfold heading. intros -> -> -> -> -> -> ->. reflexivity.
Qed.

(** The scenario of C1, and a record with several flags set. *)
Lemma createMarkdownContent_precedence_witness :
  createMarkdownContent
    (Hunk.mk "foo" "bar" "src/app.py" "py" "app.py" (Some false) (Some false) (Some false))
  = ("# app.py" ++ JS.nl ++ JS.nl
       ++ "## Before" ++ JS.nl ++ "```py" ++ JS.nl ++ "foo" ++ JS.nl ++ "```" ++ JS.nl
       ++ JS.nl
       ++ "## After" ++ JS.nl ++ "```py" ++ JS.nl ++ "bar" ++ JS.nl ++ "```" ++ JS.nl)%string
  /\ createMarkdownContent
       (Hunk.mk "a" "b" "x/data.csv" "csv" "data.csv" (Some true) (Some true) (Some true))
     = ("# data.csv" ++ JS.nl ++ JS.nl ++ msgNotInline)%string.
Proof.
  split.
  - apply (createMarkdownContent_precedence
             (Hunk.mk "foo" "bar" "src/app.py" "py" "app.py"
                (Some false) (Some false) (Some false))); reflexivity.
  - apply (proj1 (createMarkdownContent_precedence
             (Hunk.mk "a" "b" "x/data.csv" "csv" "data.csv"
                (Some true) (Some true) (Some true)))); reflexivity.
Defined.

(** C2, as the code has it: for every path with at least one '.', wherever
    it stands, the extension is what follows the last '.'; for every path
    without any '.', the extension is empty. *)
Theorem getFileExtension_after_last_dot (pre ext whole : string) :
  JS.occurs dot ext = false ->
  JS.occurs dot whole = false ->
  getFileExtension (pre ++ String dot ext) = ext
  /\ getFileExtension whole = EmptyString.
Proof.
  intros He Hw. unfold getFileExtension. split.
  - pose proof (split_two dot pre ext) as L.
    apply Nat.ltb_lt in L. rewrite L.
    now rewrite (pop_split_last dot pre ext He).
  - now rewrite (split_whole dot whole Hw).
Qed.

Lemma getFileExtension_after_last_dot_witness :
  getFileExtension "src/v1.2/app.test.py" = "py"
  /\ getFileExtension "Makefile" = EmptyString.
Proof.
  apply (getFileExtension_after_last_dot "src/v1.2/app.test" "py" "Makefile");
    reflexivity.
Defined.

(** C2 as the specification states it fails: [.gitignore] has no '.' after
    position 0, and its extension is [gitignore], not the empty string. *)
Lemma getFileExtension_dotfile :
  dotPastFirst ".gitignore" = false
  /\ getFileExtension ".gitignore" = "gitignore"
  /\ getFileExtension ".gitignore" <> EmptyString.
Proof. repeat split. discriminate. Qed.

(** C3, as the code has it: the base name is what follows the last '/'
    when that is not empty; a path without '/' and a path that ends with
    '/' are returned unchanged. *)
Theorem getBaseName_last_segment (pre last whole : string) :
  JS.occurs slash last = false ->
  last <> EmptyString ->
  JS.occurs slash whole = false ->
  getBaseName (pre ++ String slash last) = last
  /\ getBaseName whole = whole
  /\ getBaseName (pre ++ String slash EmptyString) = (pre ++ String slash EmptyString)%string.
Proof.
  intros Hl Hne Hw. unfold getBaseName. repeat split.
  - rewrite (pop_split_last slash pre last Hl).
    destruct last; [congruence | reflexivity].
  - rewrite (split_whole slash whole Hw). simpl.
    now destruct whole.
  - now rewrite (pop_split_last slash pre EmptyString eq_refl).
Qed.

Lemma getBaseName_last_segment_witness :
  getBaseName "src/ui/app.py" = "app.py"
  /\ getBaseName "Makefile" = "Makefile"
  /\ getBaseName "src/ui/" = "src/ui/".
Proof.
  apply (getBaseName_last_segment "src/ui" "app.py" "Makefile");
    [reflexivity | discriminate | reflexivity].
Defined.

(** C3 as the specification states it fails: for [src/] what follows the
    last '/' is the empty string, and the base name is [src/]. *)
Lemma getBaseName_trailing_slash :
  JS.pop (JS.split slash "src/") = Some EmptyString
  /\ getBaseName "src/" = "src/"
  /\ getBaseName "src/" <> EmptyString.
Proof. repeat split. discriminate. Qed.

(* ================================================================== *)
(** ** The extractor on binary and on new sections *)

Lemma bind_at {A B} (m : Probe A) (k : A -> Probe B) (t : nat) :
  bind m k t = after (calls (m t)) (k (value (m t)) (finish (m t))).
Proof. reflexivity. Qed.

Lemma after_after {A} (cs cs' : list HostCall) (r : Ran A) :
  after cs (after cs' r) = after (cs ++ cs') r.
Proof. unfold after. cbn [value finish calls]. now rewrite app_assoc. Qed.

Lemma value_after {A} (cs : list HostCall) (r : Ran A) : value (after cs r) = value r.
Proof. reflexivity. Qed.
Lemma finish_after {A} (cs : list HostCall) (r : Ran A) : finish (after cs r) = finish r.
Proof. reflexivity. Qed.
Lemma calls_after {A} (cs : list HostCall) (r : Ran A) :
  calls (after cs r) = cs ++ calls r.
Proof. reflexivity. Qed.

Section Extractor.
Variable file : Live.
Variable t : nat.
Variable link : Dom.Element.
Hypothesis Hlink : Dom.querySelector selPathLink (file t) = Some link.
Hypothesis Hpath : JS.nonEmpty (JS.trim (Dom.textContent link)) = true.

(** A section with a path and a binary marker. *)
Lemma processDiff_binary (marker : Dom.Element) :
  Dom.querySelector selBinary (file t) = Some marker ->
  processDiff file t =
    {| value := Some (Hunk.mk EmptyString EmptyString (pathOf link)
                        (getFileExtension (pathOf link)) (getBaseName (pathOf link))
                        None None None);
       finish := t;
       calls := [Query (Dom.css selPathLink); Query (Dom.css selBinary)] |}.
Proof.
  intros Hb.
  unfold processDiff, isBinaryFile. probe_step.
  rewrite Hlink. cbn [option_map]. rewrite Hpath. cbn [negb].
  do 2 probe_step. rewrite Hb. reflexivity.
Qed.

(** The calls of [isNewFile] are queries, none of them for a control, and
    it does not wait. *)
Lemma isNewFile_quiet :
  finish (isNewFile file t) = t /\ attempts (calls (isNewFile file t)) = 0.
Proof.
  unfold isNewFile. probe_step.
  destruct (Dom.querySelector selInfo (file t)) as [info|]; [|now split].
  probe_step.
  destruct (_ || _); [now split|].
  destruct (JS.includes _ _); now split.
Qed.

(** A section with a path, no binary marker and a new-file label. *)
Lemma processDiff_new :
  Dom.querySelector selBinary (file t) = None ->
  value (isNewFile file t) = true ->
  processDiff file t =
    {| value := Some (Hunk.mk placeholder
                        (linesOf (Dom.querySelectorAll selBlobCode (file t)))
                        (pathOf link) (getFileExtension (pathOf link)) (getBaseName (pathOf link))
                        (Some false) (Some false) (Some true));
       finish := t;
       calls := [Query (Dom.css selPathLink); Query (Dom.css selBinary)]
                ++ calls (isNewFile file t)
                ++ [Query (Dom.css selDeletion); Query (Dom.css selAddition);
                    Query (Dom.css selBlobCode)] |}.
Proof.
  intros Hb Hn.
  unfold processDiff, isBinaryFile. probe_step.
  rewrite Hlink. cbn [option_map]. rewrite Hpath. cbn [negb].
  do 2 probe_step. rewrite Hb. probe_simpl.
  probe_step. rewrite Hn, (proj1 isNewFile_quiet).
  do 3 probe_step.
  unfold after. cbn [value finish calls app]. reflexivity.
Qed.

End Extractor.

Lemma attempts_app (cs cs' : list HostCall) :
  attempts (cs ++ cs') = attempts cs + attempts cs'.
Proof. unfold attempts. now rewrite filter_app, length_app. Qed.







(* ================================================================== *)
(** ** The load-diff sub-protocol *)

Section LoadDiff.
Variable file : Live.

(** The four ways an attempt can go, by what it finds. *)
Lemma attempt_cases (el : Dom.Element) :
  linkOnly el = true \/ showsLines el = true \/ givesUp el = true \/ retries el = true.
Proof.
  unfold retries.
  destruct (linkOnly el), (showsLines el), (givesUp el); cbn; auto.
Qed.

Lemma attempt_linkOnly (n t : nat) :
  linkOnly (file t) = true ->
  tryLoadLoop file (S n) t =
    {| value := (false, true); finish := t; calls := probeCalls |}.
Proof.
  unfold linkOnly. intros H. unfold_attempt file t.
  destruct (control (file t)); [discriminate|].
  destruct (navLink (file t)); [reflexivity | discriminate].
Qed.

Lemma attempt_showsLines (n t : nat) :
  showsLines (file t) = true ->
  tryLoadLoop file (S n) t =
    {| value := (true, false); finish := t; calls := probeCalls ++ lineCalls |}.
Proof.
  unfold showsLines. intros H. unfold_attempt file t.
  destruct (control (file t)); [discriminate|].
  destruct (navLink (file t)); [discriminate|].
  probe_simpl. do 2 probe_step.
  cbn [absent andb] in H. unfold hasLines in H. rewrite H. reflexivity.
Qed.

Lemma attempt_givesUp (n t : nat) :
  givesUp (file t) = true ->
  tryLoadLoop file (S n) t =
    {| value := (false, false); finish := t; calls := probeCalls ++ lineCalls |}.
Proof.
  unfold givesUp. intros H. unfold_attempt file t.
  destruct (control (file t)); [discriminate|].
  destruct (navLink (file t)); [discriminate|].
  probe_simpl. do 2 probe_step.
  cbn [absent andb] in H.
  apply andb_true_iff in H as [Hl Ht]. apply negb_true_iff in Hl.
  unfold hasLines in Hl. rewrite Hl.
  probe_step. rewrite Ht. reflexivity.
Qed.

(** An attempt that is not decisive makes one wait, and the next attempt
    sees the section one wait later. *)
Lemma attempt_retries (n t : nat) :
  retries (file t) = true ->
  exists cs,
    attempts cs = 1
    /\ tryLoadLoop file (S n) t = after cs (tryLoadLoop file n (S t)).
Proof.
  unfold retries, linkOnly, showsLines, givesUp. intros H. unfold_attempt file t.
  destruct (control (file t)) as [btn|].
  - probe_simpl. do 2 probe_step. rewrite !after_after.
    eexists. split; [|reflexivity]. reflexivity.
  - destruct (navLink (file t)); [discriminate|].
    cbn [absent andb negb] in H.
    probe_simpl. do 2 probe_step.
    unfold hasLines in H.
    destruct (negb (isEmpty (Dom.querySelectorAll selDeletion (file t)))
              || negb (isEmpty (Dom.querySelectorAll selAddition (file t))));
      [discriminate|].
    cbn [negb andb] in H. apply negb_true_iff in H.
    probe_step. rewrite H.
    probe_step. rewrite !after_after.
    eexists. split; [|reflexivity]. reflexivity.
Qed.

(** While attempts are not decisive, they follow each other. *)
Lemma attempts_follow (k n t : nat) :
  (forall j, j < k -> retries (file (t + j)) = true) ->
  exists cs,
    attempts cs = k
    /\ tryLoadLoop file (k + n) t = after cs (tryLoadLoop file n (t + k)).
Proof.
  revert t. induction k as [|k IH]; intros t H.
  - exists []. split; [reflexivity|].
    rewrite Nat.add_0_r. cbn [Nat.add]. now destruct (tryLoadLoop file n t).
  - destruct (attempt_retries (k + n) t) as (cs & Hcs & E).
    { rewrite <- (Nat.add_0_r t). apply H. lia. }
    destruct (IH (S t)) as (cs' & Hcs' & E').
    { intros j Hj. replace (S t + j) with (t + S j) by lia. apply H. lia. }
    exists (cs ++ cs'). split.
    + rewrite attempts_app. lia.
    + cbn [Nat.add]. rewrite E, E', after_after.
      now replace (S t + k) with (t + S k) by lia.
Qed.

Lemma attempts_bounded (n t : nat) :
  attempts (calls (tryLoadLoop file n t)) <= n
  /\ (0 < n -> 0 < attempts (calls (tryLoadLoop file n t))).
Proof.
  revert t. induction n as [|n IH]; intros t; [cbn; lia|].
  destruct (attempt_cases (file t)) as [H|[H|[H|H]]].
  - rewrite (attempt_linkOnly n t H). cbn. lia.
  - rewrite (attempt_showsLines n t H). cbn. lia.
  - rewrite (attempt_givesUp n t H). cbn. lia.
  - destruct (attempt_retries n t H) as (cs & Hcs & ->).
    rewrite calls_after, attempts_app, Hcs.
    destruct (IH (S t)). lia.
Qed.

(** Without a decisive find, the flags stay down. *)
Lemma flags_stay_down (n t : nat) :
  (forall j, j < n ->
     linkOnly (file (t + j)) = false /\ showsLines (file (t + j)) = false) ->
  value (tryLoadLoop file n t) = (false, false).
Proof.
  revert t. induction n as [|n IH]; intros t H; [reflexivity|].
  destruct (H 0 ltac:(lia)) as [Hl Hs]. rewrite Nat.add_0_r in Hl, Hs.
  destruct (attempt_cases (file t)) as [C|[C|[C|C]]]; try congruence.
  - now rewrite (attempt_givesUp n t C).
  - destruct (attempt_retries n t C) as (cs & _ & ->).
    rewrite value_after. apply IH.
    intros j Hj. replace (S t + j) with (t + S j) by lia. apply H. lia.
Qed.

Lemma tryLoadLargeDiff_at (t : nat) :
  tryLoadLargeDiff file t =
    after (calls (tryLoadLoop file 5 t))
      {| value :=
           (let '(loaded, notInline) := value (tryLoadLoop file 5 t) in
            if notInline then NotInline else if loaded then Loaded else TooLarge);
         finish := finish (tryLoadLoop file 5 t);
         calls := [] |}.
Proof.
  unfold tryLoadLargeDiff. probe_step.
  destruct (value (tryLoadLoop file 5 t)) as [[|] [|]]; reflexivity.
Qed.

End LoadDiff.

(** C7: the load-diff sub-protocol makes at least one and at most 5
    attempts and returns one of three outcomes.  The attempt [k] sees the
    section as it is after [k] waits, provided the attempts before it were
    not decisive.  It returns not-inline at once, with no further attempt,
    when at an attempt a keyword matches a navigation link and no button or
    summary; it returns loaded when at an attempt no keyword matches
    anything and deletion- or addition-marked lines are there; when neither
    happens at any of the 5 attempts it returns too-large, and when all 5
    attempts end in a wait it has made exactly 5 attempts and 5 waits. *)
Theorem tryLoadLargeDiff_outcomes (file : Live) (t : nat) :
  (1 <= attempts (calls (tryLoadLargeDiff file t)) <= 5)
  /\ (forall k, k < 5 ->
        (forall j, j < k -> retries (file (t + j)) = true) ->
        linkOnly (file (t + k)) = true ->
        value (tryLoadLargeDiff file t) = NotInline
        /\ attempts (calls (tryLoadLargeDiff file t)) = S k)
  /\ (forall k, k < 5 ->
        (forall j, j < k -> retries (file (t + j)) = true) ->
        showsLines (file (t + k)) = true ->
        value (tryLoadLargeDiff file t) = Loaded
        /\ attempts (calls (tryLoadLargeDiff file t)) = S k)
  /\ ((forall j, j < 5 ->
         linkOnly (file (t + j)) = false /\ showsLines (file (t + j)) = false) ->
      value (tryLoadLargeDiff file t) = TooLarge)
  /\ ((forall j, j < 5 -> retries (file (t + j)) = true) ->
      value (tryLoadLargeDiff file t) = TooLarge
      /\ attempts (calls (tryLoadLargeDiff file t)) = 5
      /\ finish (tryLoadLargeDiff file t) = t + 5).
Proof.
  rewrite tryLoadLargeDiff_at, calls_after, value_after, finish_after.
  cbn [value finish calls]. rewrite app_nil_r.
  split; [|split; [|split; [|split]]].
  - destruct (attempts_bounded file 5 t) as [Hle Hpos]. specialize (Hpos ltac:(lia)). lia.
  - intros k Hk Hre Hlo.
    destruct (attempts_follow file k (5 - k) t Hre) as (cs & Hcs & E).
    replace (k + (5 - k)) with 5 in E by lia. rewrite E.
    destruct (5 - k) as [|n] eqn:En; [lia|].
    rewrite (attempt_linkOnly file n (t + k) Hlo), value_after, calls_after, attempts_app.
    cbn [value calls]. split; [reflexivity|]. rewrite Hcs. cbn. lia.
  - intros k Hk Hre Hsh.
    destruct (attempts_follow file k (5 - k) t Hre) as (cs & Hcs & E).
    replace (k + (5 - k)) with 5 in E by lia. rewrite E.
    destruct (5 - k) as [|n] eqn:En; [lia|].
    rewrite (attempt_showsLines file n (t + k) Hsh), value_after, calls_after, attempts_app.
    cbn [value calls]. split; [reflexivity|]. rewrite Hcs. cbn. lia.
  - intros H. now rewrite (flags_stay_down file 5 t H).
  - intros H.
    destruct (attempts_follow file 5 0 t H) as (cs & Hcs & E).
    cbn [Nat.add] in E. rewrite E, value_after, calls_after, finish_after, attempts_app.
    cbn. repeat split; lia.
Qed.

(** A section that a button loads, a section that only links to its file,
    and a section that stays empty. *)
Lemma tryLoadLargeDiff_outcomes_witness :
  (value (tryLoadLargeDiff Sample.lazySection 0) = Loaded
   /\ attempts (calls (tryLoadLargeDiff Sample.lazySection 0)) = 2)
  /\ (value (tryLoadLargeDiff (still Sample.linked) 0) = NotInline
      /\ attempts (calls (tryLoadLargeDiff (still Sample.linked) 0)) = 1)
  /\ (value (tryLoadLargeDiff (still Sample.blank) 0) = TooLarge
      /\ attempts (calls (tryLoadLargeDiff (still Sample.blank) 0)) = 5
      /\ finish (tryLoadLargeDiff (still Sample.blank) 0) = 0 + 5).
Proof.
  split; [|split].
  - apply (proj1 (proj2 (proj2 (tryLoadLargeDiff_outcomes Sample.lazySection 0))) 1);
      [lia | | reflexivity].
    intros j Hj. assert (j = 0) as -> by lia. reflexivity.
  - apply (proj1 (proj2 (tryLoadLargeDiff_outcomes (still Sample.linked) 0)) 0);
      [lia | | reflexivity].
    intros j Hj. lia.
  - apply (proj2 (proj2 (proj2 (proj2 (tryLoadLargeDiff_outcomes (still Sample.blank) 0))))).
    intros j _. reflexivity.
Defined.

(* ================================================================== *)
(** ** Runs in which no host call throws *)

Lemma naps_app (ms : nat) (cs cs' : list HostCall) :
  naps ms (cs ++ cs') = naps ms cs + naps ms cs'.
Proof. unfold naps. now rewrite filter_app, length_app. Qed.

Lemma waits_app (cs cs' : list HostCall) : waits (cs ++ cs') = waits cs + waits cs'.
Proof. unfold waits. now rewrite filter_app, length_app. Qed.

Lemma bindR_returned {A B} (m : Run A) (k : A -> Run B) (w w' : World) (a : A) :
  m w = (Returned a, w') -> bindR m k w = k a w'.
Proof. unfold bindR. now intros ->. Qed.

Lemma madeCalls_nil (w : World) : madeCalls [] w w.
Proof. unfold madeCalls. cbn. rewrite app_nil_r, Nat.add_0_r. repeat split. Qed.

Lemma madeCalls_trans (cs cs' : list HostCall) (w w' w'' : World) :
  madeCalls cs w w' -> madeCalls cs' w' w'' -> madeCalls (cs ++ cs') w w''.
Proof.
  unfold madeCalls.
  intros (C & T & B & D & P & Z & L) (C' & T' & B' & D' & P' & Z' & L').
  rewrite waits_app, app_assoc. repeat split; congruence || lia.
Qed.

Lemma host_noFaults (c : HostCall) (w : World) :
  host noFaults c w = (Returned tt, withTrace (trace w ++ [c]) w).
Proof. reflexivity. Qed.

Lemma replay_noFaults (cs : list HostCall) (w : World) :
  exists w', replay noFaults cs w = (Returned tt, w') /\ madeCalls cs w w'.
Proof.
  revert w. induction cs as [|c cs IH]; intros w.
  - exists w. split; [reflexivity | apply madeCalls_nil].
  - cbn [replay].
    rewrite (bindR_returned _ _ _ _ _ (host_noFaults c w)).
    set (w1 := match c with
               | Sleep _ => withClock (S (clock (withTrace (trace w ++ [c]) w)))
                              (withTrace (trace w ++ [c]) w)
               | _ => withTrace (trace w ++ [c]) w
               end).
    assert (E : (match c with
                 | Sleep _ => modify (fun w => withClock (S (clock w)) w)
                 | _ => retR tt
                 end) (withTrace (trace w ++ [c]) w) = (Returned tt, w1))
      by (subst w1; destruct c; reflexivity).
    rewrite (bindR_returned _ _ _ _ _ E).
    destruct (IH w1) as (w' & -> & M).
    exists w'. split; [reflexivity|].
    apply (madeCalls_trans [c] cs w w1 w'); [|exact M].
    subst w1. unfold madeCalls. destruct c; cbn; repeat split; lia.
Qed.

Lemma liftP_noFaults {A} (p : Probe A) (w : World) :
  exists w',
    liftP noFaults p w = (Returned (value (p (clock w))), w')
    /\ madeCalls (calls (p (clock w))) w w'.
Proof.
  unfold liftP.
  destruct (replay_noFaults (calls (p (clock w))) w) as (w' & E & M).
  exists w'. split; [|exact M].
  now rewrite (bindR_returned _ _ _ _ _ E).
Qed.

Lemma clicks_noFaults (btns : list Dom.Element) (w : World) :
  exists w',
    forEach btns (fun btn => liftP noFaults (click btn)) w = (Returned tt, w')
    /\ madeCalls (map (fun btn => Click (Dom.textContent btn)) btns) w w'.
Proof.
  revert w. induction btns as [|b btns IH]; intros w.
  - exists w. split; [reflexivity | apply madeCalls_nil].
  - cbn [forEach map].
    destruct (liftP_noFaults (click b) w) as (w1 & E & M).
    rewrite (bindR_returned _ _ _ _ _ E).
    destruct (IH w1) as (w' & -> & M').
    exists w'. split; [reflexivity|].
    exact (madeCalls_trans _ _ _ _ _ M M').
Qed.


(* ================================================================== *)
(** ** The page loader *)

Section PageLoader.
Variable page : Page.

Lemma naps_clicks (ms : nat) (btns : list Dom.Element) :
  naps ms (map (fun btn => Click (Dom.textContent btn)) btns) = 0.
Proof. induction btns; [reflexivity | exact IHbtns]. Qed.

Lemma waits_clicks (btns : list Dom.Element) :
  waits (map (fun btn => Click (Dom.textContent btn)) btns) = 0.
Proof. induction btns; [reflexivity | exact IHbtns]. Qed.

(** One iteration: one wait of 800 ms, one observation, and the loop goes
    on unless the count has been the same three times in a row. *)
Lemma loadLoop_iteration (n last stable : nat) (w : World) :
  exists w1,
    clock w1 = S (clock w)
    /\ naps 800 (trace w1) = S (naps 800 (trace w))
    /\ loadLoop noFaults page (S n) last stable w =
         let count := length (sections page (S (clock w))) in
         let stable' := if count =? last then S stable else 0 in
         if 3 <=? stable' then (Returned tt, w1)
         else loadLoop noFaults page n count stable' w1.
Proof.
  cbn [loadLoop].
  rewrite (bindR_returned _ _ _ _ _ (host_noFaults (ScrollTo true) w)).
  set (w0 := withTrace (trace w ++ [ScrollTo true]) w).
  destruct (liftP_noFaults (querySelectorAll selControls (document page)) w0)
    as (w2 & E2 & M2).
  rewrite (bindR_returned _ _ _ _ _ E2).
  cbn [querySelectorAll value calls] in *.
  destruct (clicks_noFaults
              (filter wantsMore (Dom.querySelectorAll selControls (document page (clock w0))))
              w2) as (w3 & E3 & M3).
  rewrite (bindR_returned _ _ _ _ _ E3).
  destruct (liftP_noFaults (sleep 800) w3) as (w4 & E4 & M4).
  rewrite (bindR_returned _ _ _ _ _ E4).
  cbn [sleep value calls] in *.
  unfold queryFiles.
  rewrite (bindR_returned _ _ _ _ _
             (bindR_returned _ _ _ _ _ (host_noFaults (Query (Dom.css selFile)) w4))).
  cbn [clock withTrace].
  destruct M2 as (C2 & T2 & _), M3 as (C3 & T3 & _), M4 as (C4 & T4 & _).
  rewrite waits_clicks in C3. cbn in C2, C4.
  assert (C : clock w4 = S (clock w)) by (subst w0; cbn in C2; lia).
  rewrite C.
  set (count := length (sections page (S (clock w)))).
  set (stable' := if count =? last then S stable else 0).
  match goal with
  | |- context [bindR (updateProgress ?a ?b ?c) ?k ?x] =>
      set (w5 := snd (updateProgress a b c x));
      change (bindR (updateProgress a b c) k x) with (k tt w5)
  end.
  exists w5. split; [|split].
  - subst w5. unfold updateProgress, modify.
    destruct (JS.nonEmpty _); cbn; exact C.
  - assert (T : trace w5 = trace w4 ++ [Query (Dom.css selFile)]).
    { subst w5. unfold updateProgress, modify. destruct (JS.nonEmpty _); reflexivity. }
    rewrite T, T4, T3, T2. subst w0. cbn [trace withTrace].
    rewrite !naps_app, naps_clicks. cbn. lia.
  - cbv beta zeta. destruct (3 <=? stable'); reflexivity.
Qed.

(** The loop started after [i] observations from time [t0], with the
    count of observation [i] and its streak. *)
Lemma loadLoop_counts (t0 n : nat) :
  forall (i : nat) (w : World),
    clock w = t0 + i ->
    streak page t0 i < 3 ->
    exists w' d,
      loadLoop noFaults page n (observed page t0 i) (streak page t0 i) w
        = (Returned tt, w')
      /\ naps 800 (trace w') = naps 800 (trace w) + d
      /\ d <= n
      /\ ((forall j, i < j <= i + n -> streak page t0 j < 3) -> d = n)
      /\ (forall k, i < k <= i + n -> 3 <= streak page t0 k ->
            (forall j, i < j < k -> streak page t0 j < 3) ->
            d = k - i).
Proof.
  induction n as [|n IH]; intros i w Hc Hs.
  - exists w, 0. split; [reflexivity|]. repeat split; try lia.
  - destruct (loadLoop_iteration n (observed page t0 i) (streak page t0 i) w)
      as (w1 & C1 & N1 & E).
    rewrite E. clear E. cbv zeta.
    assert (Eo : length (sections page (S (clock w))) = observed page t0 (S i)).
    { cbn [observed]. f_equal. f_equal. lia. }
    rewrite Eo.
    assert (Es : (if observed page t0 (S i) =? observed page t0 i
                  then S (streak page t0 i) else 0) = streak page t0 (S i))
      by reflexivity.
    rewrite Es.
    destruct (3 <=? streak page t0 (S i)) eqn:Stop.
    + apply Nat.leb_le in Stop.
      exists w1, 1. split; [reflexivity|].
      split; [lia|]. split; [lia|]. split.
      * intros H. specialize (H (S i) ltac:(lia)). lia.
      * intros k Hk Hk3 Hbefore.
        destruct (Nat.eq_dec k (S i)) as [->|Hne]; [lia|].
        specialize (Hbefore (S i) ltac:(lia)). lia.
    + apply Nat.leb_gt in Stop.
      destruct (IH (S i) w1 ltac:(lia) Stop) as (w' & d & E' & Hd & Hle & Hall & Hfirst).
      exists w', (S d). split; [exact E'|].
      split; [lia|]. split; [lia|]. split.
      * intros H. f_equal. apply Hall. intros j Hj. apply H. lia.
      * intros k Hk Hk3 Hbefore.
        destruct (Nat.eq_dec k (S i)) as [->|Hne]; [lia|].
        assert (d = k - S i).
        { apply Hfirst; [lia | exact Hk3 |]. intros j Hj. apply Hbefore. lia. }
        lia.
Qed.

(** A count that grows at every observation never starts a streak. *)
Lemma growing_no_streak (t0 bound : nat) :
  (forall k, k < bound -> observed page t0 k < observed page t0 (S k)) ->
  forall j, j <= bound -> streak page t0 j = 0.
Proof.
  intros H j Hj. destruct j as [|j]; [reflexivity|].
  cbn [streak]. specialize (H j ltac:(lia)).
  destruct (Nat.eqb_spec (observed page t0 (S j)) (observed page t0 j)); [lia|reflexivity].
Qed.

Lemma loadAllDiffs_after_loop (w w1 : World) :
  loadLoop noFaults page maxTries 0 0 w = (Returned tt, w1) ->
  fst (loadAllDiffs noFaults page w) = Returned tt
  /\ naps 800 (trace (snd (loadAllDiffs noFaults page w))) = naps 800 (trace w1).
Proof.
  intros E. unfold loadAllDiffs.
  rewrite (bindR_returned _ _ _ _ _ E).
  rewrite (bindR_returned _ _ _ _ _ (host_noFaults (ScrollTo false) w1)).
  unfold modify. cbn [fst snd trace withDisplay withTrace].
  rewrite naps_app. cbn. split; [reflexivity | lia].
Qed.

End PageLoader.

(** C8: the loop of the page loader always ends, within the 50 iterations
    of [maxTries]: it makes exactly 50 when the section count grows at every
    observation, and it stops at the first observation at which the count
    has been unchanged three times in a row. *)
Theorem loadAllDiffs_terminates (page : Page) (w : World) :
  fst (loadAllDiffs noFaults page w) = Returned tt
  /\ iterations page w <= maxTries
  /\ ((forall k, k < maxTries ->
         observed page (clock w) k < observed page (clock w) (S k)) ->
      iterations page w = maxTries)
  /\ (forall k, 0 < k <= maxTries ->
        3 <= streak page (clock w) k ->
        (forall j, j < k -> streak page (clock w) j < 3) ->
        iterations page w = k).
Proof.
  destruct (loadLoop_counts page (clock w) maxTries 0 w)
    as (w1 & d & E & Hd & Hle & Hall & Hfirst); [lia | cbn; lia |].
  destruct (loadAllDiffs_after_loop page w w1 E) as [Hret Hn].
  unfold iterations. rewrite Hn, Hd.
  split; [exact Hret|]. split; [lia|]. split.
  - intros Hgrow.
    rewrite Hall; [lia|].
    intros j Hj. rewrite (growing_no_streak page (clock w) maxTries Hgrow j); lia.
  - intros k Hk Hk3 Hbefore.
    rewrite (Hfirst k); [lia | lia | exact Hk3 |].
    intros j Hj. apply Hbefore. lia.
Qed.

(** A page that shows one more section at every observation, and a page
    that has two sections from the second observation on. *)
Lemma loadAllDiffs_terminates_witness :
  iterations Sample.growing constructed = 50
  /\ iterations Sample.settling constructed = 5.
Proof.
  split.
  - apply (proj1 (proj2 (proj2 (loadAllDiffs_terminates Sample.growing constructed)))).
    intros k _. destruct k as [|k]; cbn; rewrite ?repeat_length; lia.
  - apply (proj2 (proj2 (proj2 (loadAllDiffs_terminates Sample.settling constructed))) 5).
    + unfold maxTries. lia.
    + cbn. lia.
    + intros j Hj. do 5 (destruct j as [|j]; [cbn; lia|]). lia.
Defined.

(* ================================================================== *)
(** ** The extractor keeps time *)

Lemma timed_ret {A} (a : A) : timed (ret a).
Proof. intros t. cbn. lia. Qed.

Lemma timed_bind {A B} (m : Probe A) (k : A -> Probe B) :
  timed m -> (forall a, timed (k a)) -> timed (bind m k).
Proof.
  intros Hm Hk t. rewrite bind_at, finish_after, calls_after, waits_app.
  rewrite (Hk _ _), (Hm t). lia.
Qed.

Lemma timed_querySelector (sel : Dom.Selector) (el : Live) : timed (querySelector sel el).
Proof. intros t. cbn. lia. Qed.

Lemma timed_querySelectorAll (sel : Dom.Selector) (el : Live) :
  timed (querySelectorAll sel el).
Proof. intros t. cbn. lia. Qed.

Lemma timed_textContentOf (el : Live) : timed (textContentOf el).
Proof. intros t. cbn. lia. Qed.

Lemma timed_click (el : Dom.Element) : timed (click el).
Proof. intros t. cbn. lia. Qed.

Lemma timed_sleep (ms : nat) : timed (sleep ms).
Proof. intros t. cbn. lia. Qed.

#[local] Hint Resolve timed_ret timed_querySelector timed_querySelectorAll
  timed_textContentOf timed_click timed_sleep : timed.

Lemma timed_isNewFile (file : Live) : timed (isNewFile file).
Proof. unfold isNewFile. timed_with @timed_bind. Qed.

Lemma timed_tryLoadLoop (file : Live) (n : nat) : timed (tryLoadLoop file n).
Proof.
  induction n as [|n IH]; cbn [tryLoadLoop]; [apply timed_ret|].
  timed_with @timed_bind; exact IH.
Qed.

Lemma timed_tryLoadLargeDiff (file : Live) : timed (tryLoadLargeDiff file).
Proof.
  unfold tryLoadLargeDiff. apply timed_bind; [apply timed_tryLoadLoop|].
  intros [loaded notInline]. timed_with @timed_bind.
Qed.

#[local] Hint Resolve timed_isNewFile timed_tryLoadLargeDiff : timed.

Lemma timed_processDiff (file : Live) : timed (processDiff file).
Proof. unfold processDiff, isBinaryFile. timed_with @timed_bind. Qed.

(* ================================================================== *)
(** ** The archive *)







Section ExportRun.
Variable page : Page.

Lemma bindR_assoc {A B C} (m : Run A) (k : A -> Run B) (k' : B -> Run C) (w : World) :
  bindR (bindR m k) k' w = bindR m (fun a => bindR (k a) k') w.
Proof. unfold bindR. destruct (m w) as [[a|e] w']; reflexivity. Qed.




End ExportRun.

Lemma extractAll_length (files : list Live) :
  forall t, length (extractAll files t) = length files.
Proof. induction files as [|f files IH]; intros t; cbn; [reflexivity | now rewrite IH]. Qed.




(* ================================================================== *)
(** ** Cleanup *)

Lemma finally_runs {A} (body : Run A) (handler : nat -> Run A)
    (f : World -> World) (w : World) :
  exists w2, snd (tryCatchFinally body handler (modify f) w) = f w2.
Proof.
  unfold tryCatchFinally, modify.
  destruct (body w) as [[a|e] w1].
  - now exists w1.
  - destruct (handler e w1) as [o w2]. now exists w2.
Qed.

(** C9, as the code has it: on every exit path of [exportDiffs], whether it
    completes or an error is raised at any point inside it, the trigger
    control is enabled again and the progress element is hidden when it
    ends; so a triggered run ends with both restored whenever its loading
    phase, which runs before [exportDiffs], returns. *)
Theorem cleanup_scoped_to_export (faults : nat -> bool) (page : Page) (w : World) :
  idle (snd (exportDiffs faults page w))
  /\ (fst (loadAllDiffs faults page (clicked w)) = Returned tt ->
      idle (snd (handleExportClick faults page w))).
Proof.
  assert (Hexp : forall w0, idle (snd (exportDiffs faults page w0))).
  { intros w0. unfold exportDiffs.
    destruct (finally_runs (exportBody faults page)
                (fun _ => bindR (host faults ConsoleError) (fun _ => host faults Alert))
                (fun w => withDisplay DisplayNone (withDisabled false w)) w0)
      as (w2 & ->).
    split; reflexivity. }
  split; [apply Hexp|].
  intros Hload.
  assert (E : handleExportClick faults page w
              = bindR (loadAllDiffs faults page) (fun _ => exportDiffs faults page)
                  (clicked w)) by reflexivity.
  rewrite E. unfold bindR.
  destruct (loadAllDiffs faults page (clicked w)) as [[[]|e] w1]; [|discriminate].
  apply Hexp.
Qed.

(** An error raised by a query of the extractor, inside [exportDiffs]. *)
Lemma cleanup_scoped_to_export_witness :
  idle (snd (handleExportClick Sample.extractionThrows Sample.twoFiles constructed))
  /\ existsb (fun c => match c with Alert => true | _ => false end)
       (trace (snd (handleExportClick Sample.extractionThrows Sample.twoFiles constructed)))
     = true.
Proof.
  split.
  - apply (proj2 (cleanup_scoped_to_export Sample.extractionThrows Sample.twoFiles
                    constructed)).
    vm_compute. reflexivity.
  - vm_compute. reflexivity.
Defined.

(** C9 as the specification states it fails: an error raised after the
    trigger click but during the loading phase (here by the first host
    call, [window.scrollTo]) ends the run with the control still disabled
    and the progress element still shown. *)
Lemma load_phase_error_leaves_ui_busy :
  fst (handleExportClick Sample.firstCallThrows Sample.twoFiles constructed) = Thrown 0
  /\ buttonDisabled
       (snd (handleExportClick Sample.firstCallThrows Sample.twoFiles constructed)) = true
  /\ progressDisplay
       (snd (handleExportClick Sample.firstCallThrows Sample.twoFiles constructed))
     = DisplayBlock.
Proof. repeat split. Qed.

(* ================================================================== *)
(** ** The scenarios of the specification *)

(** [src/app.py] with one deletion and one addition. *)
Example scenario_app_py :
  option_map createMarkdownContent (value (processDiff (still Sample.appPy) 0))
  = Some ("# app.py" ++ JS.nl ++ JS.nl
            ++ "## Before" ++ JS.nl ++ "```py" ++ JS.nl ++ "foo" ++ JS.nl ++ "```" ++ JS.nl
            ++ JS.nl
            ++ "## After" ++ JS.nl ++ "```py" ++ JS.nl ++ "bar" ++ JS.nl ++ "```" ++ JS.nl)%string.
Proof. vm_compute. reflexivity. Qed.

(** A new [README.md] with the lines [# Title] and [body]. *)
Example scenario_readme :
  option_map createMarkdownContent (value (processDiff (still Sample.readme) 0))
  = Some ("# README.md" ++ JS.nl ++ JS.nl
            ++ "## Before" ++ JS.nl ++ "This file did not exist before." ++ JS.nl
            ++ JS.nl
            ++ "## After" ++ JS.nl ++ "```md" ++ JS.nl
            ++ "# Title" ++ JS.nl ++ "body" ++ JS.nl ++ "```" ++ JS.nl)%string.
Proof. vm_compute. reflexivity. Qed.

(** No marked lines, no control in 5 attempts, and the text
    [too large to render]. *)
Example scenario_too_large :
  attempts (calls (processDiff (still Sample.oversized) 0)) = 5
  /\ option_map Hunk.tooLarge (value (processDiff (still Sample.oversized) 0))
     = Some (Some true)
  /\ option_map createMarkdownContent (value (processDiff (still Sample.oversized) 0))
     = Some ("# dump.json" ++ JS.nl ++ JS.nl
               ++ "Diff too large to display on GitHub. Not available for export.")%string.
Proof. repeat split; vm_compute; reflexivity. Qed.

(* ================================================================== *)
(** ** More on the path helpers *)

Lemma string_append_assoc (a b c : string) :
  ((a ++ b) ++ c = a ++ (b ++ c))%string.
Proof. induction a as [|x a IH]; cbn; [reflexivity | now rewrite IH]. Qed.

(** A string that has the separator ends in a piece without it. *)
Lemma last_piece (sep : ascii) (p : string) :
  JS.occurs sep p = true ->
  exists pre last, p = (pre ++ String sep last)%string /\ JS.occurs sep last = false.
Proof.
  induction p as [|c p IH]; cbn [JS.occurs]; intros H; [discriminate|].
  destruct (JS.occurs sep p) eqn:Hp.
  - destruct (IH eq_refl) as (pre & last & -> & Hl).
    exists (String c pre), last. split; [reflexivity | exact Hl].
  - rewrite orb_false_r in H. apply Ascii.eqb_eq in H as ->.
    exists EmptyString, p. split; [reflexivity | exact Hp].
Qed.

Lemma occurs_append (c : ascii) (a b : string) :
  JS.occurs c (a ++ b) = JS.occurs c a || JS.occurs c b.
Proof.
  induction a as [|d a IH]; cbn; [reflexivity|].
  now rewrite IH, orb_assoc.
Qed.

(** The extension of a path with a '.' is what follows the last one. *)
Lemma getFileExtension_last (pre ext : string) :
  JS.occurs dot ext = false -> getFileExtension (pre ++ String dot ext) = ext.
Proof.
  intros He. unfold getFileExtension.
  pose proof (split_two dot pre ext) as L. apply Nat.ltb_lt in L. rewrite L.
  now rewrite (pop_split_last dot pre ext He).
Qed.

(** The base name of a path is the path itself or a piece without '/'. *)
Lemma getBaseName_cases (p : string) :
  getBaseName p = p
  \/ (JS.occurs slash (getBaseName p) = false
      /\ JS.nonEmpty (getBaseName p) = true
      /\ exists pre, p = (pre ++ String slash (getBaseName p))%string).
Proof.
  destruct (JS.occurs slash p) eqn:Hs.
  - destruct (last_piece slash p Hs) as (pre & last & -> & Hl).
    unfold getBaseName. rewrite (pop_split_last slash pre last Hl).
    destruct last as [|c last]; [now left|]. right.
    cbn [JS.orElse JS.nonEmpty]. repeat split; [exact Hl|]. now exists pre.
  - left. unfold getBaseName. rewrite (split_whole slash p Hs). cbn.
    now destruct p.
Qed.

(** X1: the base name of a path is empty only for the empty path; it is
    the path itself or has no '/'; and taking the base name twice changes
    nothing. *)
Theorem getBaseName_shape (p : string) :
  JS.nonEmpty (getBaseName p) = JS.nonEmpty p
  /\ (getBaseName p = p \/ JS.occurs slash (getBaseName p) = false)
  /\ getBaseName (getBaseName p) = getBaseName p.
Proof.
  destruct (getBaseName_cases p) as [E|(Hs & Hn & pre & E)].
  - rewrite E. split; [reflexivity|]. split; [now left | exact E].
  - split; [|split].
    + rewrite Hn. rewrite E. now destruct pre.
    + now right.
    + unfold getBaseName at 1. rewrite (split_whole slash _ Hs). cbn [JS.pop].
      unfold JS.orElse. now rewrite Hn.
Qed.

(** X2: when the base name of a path has a '.', the extension of the path
    is the extension of its base name and has no '.'; it has no '/' either
    unless the base name has one (the path ends with '/'). *)
Theorem extension_of_base_name (p : string) :
  JS.occurs dot (getBaseName p) = true ->
  getFileExtension p = getFileExtension (getBaseName p)
  /\ JS.occurs dot (getFileExtension p) = false
  /\ (JS.occurs slash (getBaseName p) = false ->
      JS.occurs slash (getFileExtension p) = false).
Proof.
  intros Hd.
  destruct (last_piece dot (getBaseName p) Hd) as (stem & ext & Eb & He).
  assert (Hbase : getFileExtension (getBaseName p) = ext)
    by (rewrite Eb; now apply getFileExtension_last).
  assert (Hpath : getFileExtension p = ext).
  { destruct (getBaseName_cases p) as [E|(_ & _ & pre & E)].
    - rewrite <- E. exact Hbase.
    - rewrite E, Eb.
      change (String slash (stem ++ String dot ext))
        with (String slash stem ++ String dot ext)%string.
      rewrite <- string_append_assoc. now apply getFileExtension_last. }
  rewrite Hpath, Hbase. split; [reflexivity|]. split; [exact He|].
  intros Hs. rewrite Eb, occurs_append in Hs.
  apply orb_false_iff in Hs as [_ Hs]. cbn [JS.occurs] in Hs.
  now apply orb_false_iff in Hs as [_ Hs].
Qed.

Lemma extension_of_base_name_witness :
  getFileExtension "src/ui.v2/app.test.py" = getFileExtension "app.test.py"
  /\ JS.occurs dot (getFileExtension "src/ui.v2/app.test.py") = false
  /\ JS.occurs slash (getFileExtension "src/ui.v2/app.test.py") = false.
Proof.
  destruct (extension_of_base_name "src/ui.v2/app.test.py" eq_refl) as (E & D & S).
  split; [exact E|]. split; [exact D|]. exact (S eq_refl).
Defined.

(** X3: when a path has a '.' but its base name has none, the '.' is in a
    directory name, and the extension runs from there across the '/' to the
    end of the path: it ends with '/' and the base name. *)
Theorem extension_spans_directories (p : string) :
  JS.occurs dot p = true ->
  JS.occurs dot (getBaseName p) = false ->
  exists mid,
    JS.occurs dot mid = false
    /\ getFileExtension p = (mid ++ String slash (getBaseName p))%string.
Proof.
  intros Hp Hb.
  destruct (getBaseName_cases p) as [E|(_ & _ & pre & E)]; [congruence|].
  assert (Hpre : JS.occurs dot pre = true).
  { rewrite E, occurs_append in Hp. cbn [JS.occurs] in Hp.
    rewrite Hb, orb_false_r in Hp.
    destruct (JS.occurs dot pre); [reflexivity|]. discriminate. }
  destruct (last_piece dot pre Hpre) as (a & mid & -> & Hm).
  exists mid. split; [exact Hm|].
  rewrite E at 1. rewrite string_append_assoc.
  change (String dot mid ++ String slash (getBaseName p))%string
    with (String dot (mid ++ String slash (getBaseName p)))%string.
  apply getFileExtension_last.
  rewrite occurs_append. cbn [JS.occurs]. now rewrite Hm, Hb.
Qed.

Lemma extension_spans_directories_witness :
  exists mid,
    JS.occurs dot mid = false
    /\ getFileExtension "build/v1.2/Makefile" = (mid ++ String slash "Makefile")%string.
Proof.
  destruct (extension_spans_directories "build/v1.2/Makefile" eq_refl eq_refl)
    as (mid & Hm & E).
  exists mid. split; [exact Hm | exact E].
Defined.

(* ================================================================== *)
(** ** More on the extractor *)

Lemma yields_ret {A} (P : A -> Prop) (a : A) : P a -> yields P (ret a).
Proof. intros H t. exact H. Qed.

Lemma yields_bind {A B} (P : B -> Prop) (m : Probe A) (k : A -> Probe B) :
  (forall a, yields P (k a)) -> yields P (bind m k).
Proof. intros H t. rewrite bind_at, value_after. apply H. Qed.

(** Every record has the path's extension and base name and at most one
    flag. *)
Lemma processDiff_wellFormed (file : Live) :
  yields (fun o => match o with Some diff => wellFormed diff | None => True end)
    (processDiff file).
Proof.
  unfold processDiff.
  apply yields_bind. intros link.
  destruct (option_map _ link) as [filePath|]; [|now apply yields_ret].
  destruct (JS.nonEmpty filePath) eqn:Hp; cbn [negb]; [|now apply yields_ret].
  apply yields_bind. intros [|].
  - apply yields_ret. unfold wellFormed, flagsSet. cbn. auto.
  - do 3 (apply yields_bind; intro).
    match goal with |- yields _ (if ?b then _ else _) => destruct b end.
    + apply yields_bind. intro. apply yields_ret.
      unfold wellFormed, flagsSet. cbn. auto.
    + match goal with |- yields _ (if ?b then _ else _) => destruct b end.
      * apply yields_bind. intros loadResult.
        do 3 (apply yields_bind; intro).
        apply yields_ret. unfold wellFormed, flagsSet. cbn [Hunk.filePath
          Hunk.extension Hunk.baseName Hunk.tooLarge Hunk.notInline Hunk.isNewFile].
        repeat split; [exact Hp|].
        destruct loadResult; cbn; try destruct (_ || _); cbn; lia.
      * apply yields_ret. unfold wellFormed, flagsSet. cbn. auto.
Qed.

(** X4: every record the extractor produces, for whatever section at
    whatever time, has a non-empty path, the extension and the base name of
    that path, a non-empty base name, and at most one of the flags
    tooLarge, notInline and isNewFile set. *)
Theorem processDiff_record_invariant (file : Live) (t : nat) (diff : DiffHunk) :
  value (processDiff file t) = Some diff ->
  JS.nonEmpty (Hunk.filePath diff) = true
  /\ Hunk.extension diff = getFileExtension (Hunk.filePath diff)
  /\ Hunk.baseName diff = getBaseName (Hunk.filePath diff)
  /\ JS.nonEmpty (Hunk.baseName diff) = true
  /\ flagsSet diff <= 1.
Proof.
  intros H. pose proof (processDiff_wellFormed file t) as W.
  cbv beta in W. rewrite H in W. destruct W as (Hp & He & Hb & Hf).
  repeat split; try assumption.
  rewrite Hb.
  destruct (getBaseName_cases (Hunk.filePath diff)) as [E|(_ & Hn & _)].
  - now rewrite E.
  - exact Hn.
Qed.

Lemma processDiff_record_invariant_witness :
  exists diff,
    value (processDiff Sample.lazySection 0) = Some diff
    /\ Hunk.baseName diff = "big.sql" /\ flagsSet diff <= 1.
Proof.
  eexists. split; [vm_compute; reflexivity|].
  split; [reflexivity|].
  eapply (processDiff_record_invariant Sample.lazySection 0).
  vm_compute. reflexivity.
Defined.

Section MoreExtractor.
Variable file : Live.
Variable t : nat.

(** A section without a usable path link. *)
Lemma processDiff_skip :
  hasPath (file t) = false ->
  processDiff file t =
    {| value := None; finish := t; calls := [Query (Dom.css selPathLink)] |}.
Proof.
  unfold hasPath, pathOf. intros H.
  unfold processDiff. probe_step.
  destruct (Dom.querySelector selPathLink (file t)) as [link|]; cbn [option_map].
  - rewrite H. reflexivity.
  - reflexivity.
Qed.

Variable link : Dom.Element.
Hypothesis Hlink : Dom.querySelector selPathLink (file t) = Some link.
Hypothesis Hpath : JS.nonEmpty (pathOf link) = true.
Hypothesis Hbinary : Dom.querySelector selBinary (file t) = None.
Hypothesis Hnew : value (isNewFile file t) = false.

(** The part that every run on a section that is neither skipped, binary
    nor new begins with. *)
Lemma processDiff_not_new :
  processDiff file t =
    after ([Query (Dom.css selPathLink); Query (Dom.css selBinary)]
             ++ calls (isNewFile file t) ++ lineCalls)
      ((if isEmpty (Dom.querySelectorAll selDeletion (file t))
           && isEmpty (Dom.querySelectorAll selAddition (file t))
        then
          bind (tryLoadLargeDiff file) (fun loadResult =>
          bind (querySelectorAll selDeletion file) (fun beforeBlocks =>
          bind (querySelectorAll selAddition file) (fun afterBlocks =>
          bind (textContentOf file) (fun txt =>
            ret (Some (Hunk.mk (linesOf beforeBlocks) (linesOf afterBlocks) (pathOf link)
                         (getFileExtension (pathOf link)) (getBaseName (pathOf link))
                         (Some (isTooLarge loadResult
                                && (JS.includes tooLargeToDisplay (JS.toLowerCase txt)
                                    || JS.includes tooLargeToRender (JS.toLowerCase txt))))
                         (Some (isNotInline loadResult)) (Some false)))))))
        else
          ret (Some (Hunk.mk (linesOf (Dom.querySelectorAll selDeletion (file t)))
                       (linesOf (Dom.querySelectorAll selAddition (file t))) (pathOf link)
                       (getFileExtension (pathOf link)) (getBaseName (pathOf link))
                       (Some false) (Some false) (Some false)))) t).
Proof.
  unfold processDiff, isBinaryFile. probe_step.
  rewrite Hlink. cbn [option_map]. fold (pathOf link). rewrite Hpath. cbn [negb].
  do 2 probe_step. rewrite Hbinary. probe_simpl.
  probe_step. rewrite Hnew, (proj1 (isNewFile_quiet file t)).
  do 2 probe_step.
  rewrite !after_after. unfold lineCalls.
  cbn [app]. rewrite <- !app_assoc. reflexivity.
Qed.

(** Marked lines are there from the start. *)
Lemma processDiff_plain :
  hasLines (file t) = true ->
  processDiff file t =
    {| value := Some (Hunk.mk (linesOf (Dom.querySelectorAll selDeletion (file t)))
                        (linesOf (Dom.querySelectorAll selAddition (file t))) (pathOf link)
                        (getFileExtension (pathOf link)) (getBaseName (pathOf link))
                        (Some false) (Some false) (Some false));
       finish := t;
       calls := [Query (Dom.css selPathLink); Query (Dom.css selBinary)]
                ++ calls (isNewFile file t) ++ lineCalls |}.
Proof.
  intros Hl. rewrite processDiff_not_new.
  unfold hasLines in Hl.
  destruct (isEmpty (Dom.querySelectorAll selDeletion (file t))),
           (isEmpty (Dom.querySelectorAll selAddition (file t)));
    try discriminate; cbn [andb]; unfold after; cbn [ret value finish calls];
    now rewrite app_nil_r.
Qed.

(** No marked lines at the start: the load-diff sub-protocol runs, and the
    lines and the text are read when it is over. *)
Lemma processDiff_loads :
  hasLines (file t) = false ->
  let load := tryLoadLargeDiff file t in
  let now := file (finish load) in
  processDiff file t =
    {| value := Some (Hunk.mk (linesOf (Dom.querySelectorAll selDeletion now))
                        (linesOf (Dom.querySelectorAll selAddition now)) (pathOf link)
                        (getFileExtension (pathOf link)) (getBaseName (pathOf link))
                        (Some (isTooLarge (value load) && saysTooLarge now))
                        (Some (isNotInline (value load))) (Some false));
       finish := finish load;
       calls := [Query (Dom.css selPathLink); Query (Dom.css selBinary)]
                ++ calls (isNewFile file t) ++ lineCalls
                ++ calls load ++ lineCalls |}.
Proof.
  intros Hl load now. rewrite processDiff_not_new.
  unfold hasLines in Hl.
  destruct (isEmpty (Dom.querySelectorAll selDeletion (file t))),
           (isEmpty (Dom.querySelectorAll selAddition (file t)));
    try discriminate; cbn [andb].
  do 4 probe_step. fold load. fold now.
  unfold after, saysTooLarge, lineCalls. cbn [ret value finish calls].
  rewrite app_nil_r, <- !app_assoc. reflexivity.
Qed.

End MoreExtractor.

(* ================================================================== *)
(** ** More on the load-diff sub-protocol *)

Lemma sleptMs_app (cs cs' : list HostCall) :
  sleptMs (cs ++ cs') = sleptMs cs + sleptMs cs'.
Proof. unfold sleptMs. now rewrite map_app, list_sum_app. Qed.

Lemma clickedLabels_app (cs cs' : list HostCall) :
  clickedLabels (cs ++ cs') = clickedLabels cs ++ clickedLabels cs'.
Proof. unfold clickedLabels. now rewrite flat_map_app. Qed.

(** What the sub-protocol clicks is a button or a summary that mentions a
    keyword. *)
Lemma control_is_button (el btn : Dom.Element) :
  control el = Some btn ->
  (Dom.htag (Dom.head btn) = "button" \/ Dom.htag (Dom.head btn) = "summary")
  /\ mentionsKeyword btn = true.
Proof.
  unfold control. intros H. apply find_some in H as [Hin Hk].
  split; [|exact Hk].
  unfold Dom.querySelectorAll in Hin. apply filter_In in Hin as [_ Hm].
  unfold Dom.matches, selControls in Hm. cbn [Dom.alternatives existsb] in Hm.
  unfold Dom.complexMatches, Dom.one in Hm. cbn [Dom.subject Dom.simpleMatches] in Hm.
  destruct (String.eqb_spec "button" (Dom.htag (Dom.head btn))) as [E|_]; [now left|].
  destruct (String.eqb_spec "summary" (Dom.htag (Dom.head btn))) as [E|_]; [now right|].
  discriminate.
Qed.

Section MoreLoadDiff.
Variable file : Live.

(** An attempt that is not decisive either clicks the control it found and
    waits 1200 ms, or finds nothing and waits 600 ms. *)
Lemma attempt_retries_calls (n t : nat) :
  retries (file t) = true ->
  (exists btn,
     control (file t) = Some btn
     /\ tryLoadLoop file (S n) t =
          after (probeCalls ++ [Click (Dom.textContent btn); Sleep 1200])
            (tryLoadLoop file n (S t)))
  \/ (control (file t) = None
      /\ tryLoadLoop file (S n) t =
           after (probeCalls ++ lineCalls ++ [Sleep 600]) (tryLoadLoop file n (S t))).
Proof.
  unfold retries, linkOnly, showsLines, givesUp. intros H. unfold_attempt file t.
  destruct (control (file t)) as [btn|].
  - left. exists btn. split; [reflexivity|].
    probe_simpl. do 2 probe_step. now rewrite !after_after.
  - right. split; [reflexivity|].
    destruct (navLink (file t)); [discriminate|].
    cbn [absent andb negb] in H.
    probe_simpl. do 2 probe_step.
    unfold hasLines in H.
    destruct (negb (isEmpty (Dom.querySelectorAll selDeletion (file t)))
              || negb (isEmpty (Dom.querySelectorAll selAddition (file t))));
      [discriminate|].
    cbn [negb andb] in H. apply negb_true_iff in H.
    probe_step. rewrite H.
    probe_step. now rewrite !after_after.
Qed.

(** What a run of the loop costs, what it clicks, and what its flags say
    about the section as the loop leaves it. *)
Lemma tryLoadLoop_summary (n : nat) :
  forall t,
    let r := tryLoadLoop file n t in
    waits (calls r) <= n
    /\ sleptMs (calls r) <= 1200 * n
    /\ sleptMs (calls r) = 600 * naps 600 (calls r) + 1200 * naps 1200 (calls r)
    /\ length (clickedLabels (calls r)) = naps 1200 (calls r)
    /\ (forall label, In label (clickedLabels (calls r)) ->
          exists j btn,
            j < n /\ control (file (t + j)) = Some btn /\ Dom.textContent btn = label)
    /\ match value r with
       | (true, notInline) => notInline = false /\ showsLines (file (finish r)) = true
       | (false, true) => linkOnly (file (finish r)) = true
       | (false, false) => True
       end.
Proof.
  induction n as [|n IH]; intros t.
  - cbn. repeat split; try lia; try (intros label []).
  - destruct (attempt_cases (file t)) as [H|[H|[H|H]]].
    + rewrite (attempt_linkOnly file n t H). cbn.
      repeat split; try lia; try (intros label []); try exact H.
    + rewrite (attempt_showsLines file n t H). cbn.
      repeat split; try lia; try (intros label []); try exact H.
    + rewrite (attempt_givesUp file n t H). cbn.
      repeat split; try lia; try (intros label []).
    + specialize (IH (S t)). cbv zeta in IH.
      destruct IH as (Hw & Hms & Hsum & Hcl & Hin & Hfl).
      destruct (attempt_retries_calls n t H) as [(btn & Hb & ->)|(Hb & ->)];
        cbv zeta;
        rewrite calls_after, value_after, finish_after,
          waits_app, sleptMs_app, !naps_app, clickedLabels_app, length_app;
        cbn [probeCalls lineCalls waits sleptMs naps clickedLabels
             filter isSleep isNap map list_sum fold_right flat_map app length
             Nat.eqb Nat.add];
        (split; [lia|]); (split; [lia|]); (split; [lia|]); (split; [lia|]);
        (split; [|exact Hfl]).
      * intros label [<-|Hl].
        -- exists 0, btn. rewrite Nat.add_0_r. repeat split; [lia | exact Hb].
        -- destruct (Hin label Hl) as (j & b & Hj & Hc & Ht).
           exists (S j), b. replace (t + S j) with (S t + j) by lia.
           repeat split; [lia | exact Hc | exact Ht].
      * intros label Hl.
        destruct (Hin label Hl) as (j & b & Hj & Hc & Ht).
        exists (S j), b. replace (t + S j) with (S t + j) by lia.
        repeat split; [lia | exact Hc | exact Ht].
Qed.

End MoreLoadDiff.


(** X5: the outcome of the load-diff sub-protocol describes the section as
    it is when the sub-protocol ends: after loaded, no keyword matches
    anything and marked lines are there; after not-inline, a keyword matches
    a link and no button or summary. *)
Theorem tryLoadLargeDiff_reflects_section (file : Live) (t : nat) :
  (value (tryLoadLargeDiff file t) = Loaded ->
   showsLines (file (finish (tryLoadLargeDiff file t))) = true)
  /\ (value (tryLoadLargeDiff file t) = NotInline ->
      linkOnly (file (finish (tryLoadLargeDiff file t))) = true).
Proof.
  rewrite tryLoadLargeDiff_at, value_after, finish_after. cbn [value finish].
  destruct (tryLoadLoop_summary file 5 t) as (_ & _ & _ & _ & _ & H).
  destruct (value (tryLoadLoop file 5 t)) as [[|] [|]]; cbn in *;
    split; intros E; try discriminate; try tauto.
  destruct H; discriminate.
Qed.

Lemma tryLoadLargeDiff_reflects_section_witness :
  showsLines (Sample.lazySection (finish (tryLoadLargeDiff Sample.lazySection 0))) = true
  /\ linkOnly (Sample.linked) = true.
Proof.
  split.
  - apply (proj1 (tryLoadLargeDiff_reflects_section Sample.lazySection 0)).
    reflexivity.
  - apply (proj2 (tryLoadLargeDiff_reflects_section (still Sample.linked) 0)).
    reflexivity.
Defined.

(** X6: the load-diff sub-protocol clicks nothing but the control it found
    at an attempt, which is a button or a summary whose text mentions a
    keyword, never a link; and it waits 1200 ms after each click: there are
    as many waits of 1200 ms as clicks. *)
Theorem tryLoadLargeDiff_clicks_controls (file : Live) (t : nat) (label : string) :
  In label (clickedLabels (calls (tryLoadLargeDiff file t))) ->
  length (clickedLabels (calls (tryLoadLargeDiff file t)))
  = naps 1200 (calls (tryLoadLargeDiff file t))
  /\ exists j btn,
       j < 5
       /\ control (file (t + j)) = Some btn
       /\ Dom.textContent btn = label
       /\ (Dom.htag (Dom.head btn) = "button" \/ Dom.htag (Dom.head btn) = "summary")
       /\ mentionsKeyword btn = true.
Proof.
  rewrite tryLoadLargeDiff_at, calls_after. cbn [calls]. rewrite app_nil_r.
  destruct (tryLoadLoop_summary file 5 t) as (_ & _ & _ & Hn & Hin & _).
  intros H. split; [exact Hn|].
  destruct (Hin label H) as (j & btn & Hj & Hc & Ht).
  exists j, btn. repeat split; try assumption; apply (control_is_button _ _ Hc).
Qed.

Lemma tryLoadLargeDiff_clicks_controls_witness :
  clickedLabels (calls (tryLoadLargeDiff Sample.lazySection 0)) = ["Load diff"]
  /\ naps 1200 (calls (tryLoadLargeDiff Sample.lazySection 0)) = 1.
Proof.
  destruct (tryLoadLargeDiff_clicks_controls Sample.lazySection 0 "Load diff")
    as [Hn _].
  - left. reflexivity.
  - split; [reflexivity|]. rewrite <- Hn. reflexivity.
Defined.

(** X7: a run of the load-diff sub-protocol makes at most 5 timed waits,
    each of 600 ms or 1200 ms, 5 times 1200 ms at most in all; it ends as many waits
    after its start as it made. *)
Theorem tryLoadLargeDiff_cost (file : Live) (t : nat) :
  waits (calls (tryLoadLargeDiff file t)) <= 5
  /\ sleptMs (calls (tryLoadLargeDiff file t)) <= 5 * 1200
  /\ sleptMs (calls (tryLoadLargeDiff file t))
     = 600 * naps 600 (calls (tryLoadLargeDiff file t))
       + 1200 * naps 1200 (calls (tryLoadLargeDiff file t))
  /\ finish (tryLoadLargeDiff file t) = t + waits (calls (tryLoadLargeDiff file t)).
Proof.
  split; [|split; [|split]]; [| | |apply timed_tryLoadLargeDiff].
  all: rewrite tryLoadLargeDiff_at, calls_after; cbn [calls]; rewrite app_nil_r.
  all: destruct (tryLoadLoop_summary file 5 t) as (Hw & Hms & Hsum & _); lia.
Qed.

(** X8: when at an attempt no keyword matches anything, no marked lines
    are there and the section's text has [diff is too large to display], the
    sub-protocol gives up at once with too-large, without the wait and
    without the attempts that are left. *)
Theorem tryLoadLargeDiff_gives_up (file : Live) (t k : nat) :
  k < 5 ->
  (forall j, j < k -> retries (file (t + j)) = true) ->
  givesUp (file (t + k)) = true ->
  value (tryLoadLargeDiff file t) = TooLarge
  /\ attempts (calls (tryLoadLargeDiff file t)) = S k
  /\ waits (calls (tryLoadLargeDiff file t)) = k.
Proof.
  intros Hk Hre Hg.
  assert (Hfin : finish (tryLoadLargeDiff file t) = t + k
                 /\ value (tryLoadLargeDiff file t) = TooLarge
                 /\ attempts (calls (tryLoadLargeDiff file t)) = S k).
  { rewrite tryLoadLargeDiff_at, calls_after, value_after, finish_after.
    cbn [value finish calls]. rewrite app_nil_r.
    destruct (attempts_follow file k (5 - k) t Hre) as (cs & Hcs & E).
    replace (k + (5 - k)) with 5 in E by lia. rewrite E.
    destruct (5 - k) as [|n] eqn:En; [lia|].
    rewrite (attempt_givesUp file n (t + k) Hg),
      value_after, calls_after, finish_after, attempts_app.
    cbn [value calls finish]. repeat split. rewrite Hcs. cbn. lia. }
  destruct Hfin as (Hf & Hv & Ha).
  split; [exact Hv|]. split; [exact Ha|].
  pose proof (timed_tryLoadLargeDiff file t) as T. lia.
Qed.

Lemma tryLoadLargeDiff_gives_up_witness :
  value (tryLoadLargeDiff
           (still (Sample.section
                     [Sample.header "big.bin" [];
                      Dom.Elem "p" [] [Dom.Text "Sorry, this diff is too large to display."]]))
           0) = TooLarge
  /\ attempts (calls (tryLoadLargeDiff
           (still (Sample.section
                     [Sample.header "big.bin" [];
                      Dom.Elem "p" [] [Dom.Text "Sorry, this diff is too large to display."]]))
           0)) = 1.
Proof.
  destruct (tryLoadLargeDiff_gives_up
              (still (Sample.section
                        [Sample.header "big.bin" [];
                         Dom.Elem "p" [] [Dom.Text "Sorry, this diff is too large to display."]]))
              0 0) as (Hv & Ha & _).
  - lia.
  - intros j Hj. lia.
  - reflexivity.
  - split; [exact Hv | exact Ha].
Defined.

(* ================================================================== *)
(** ** More on [processDiff] *)

Lemma isNewFile_calls (file : Live) (t : nat) :
  calls (isNewFile file t) = [Query (Dom.css selInfo)]
  \/ calls (isNewFile file t) = [Query (Dom.css selInfo); Query (Dom.css selLabel)].
Proof.
  unfold isNewFile. probe_step.
  destruct (Dom.querySelector selInfo (file t)) as [info|]; [|now left].
  right. probe_step.
  destruct (_ || _); [reflexivity|].
  destruct (JS.includes _ _); reflexivity.
Qed.

Lemma hasPath_link (el : Dom.Element) :
  hasPath el = true ->
  exists link, Dom.querySelector selPathLink el = Some link
               /\ JS.nonEmpty (pathOf link) = true.
Proof.
  unfold hasPath. destruct (Dom.querySelector selPathLink el) as [link|];
    [|discriminate].
  intros H. now exists link.
Qed.










Lemma load_measures (file : Live) (t : nat) :
  attempts (calls (tryLoadLargeDiff file t)) <= 5
  /\ waits (calls (tryLoadLargeDiff file t)) <= 5
  /\ sleptMs (calls (tryLoadLargeDiff file t)) <= 5 * 1200.
Proof.
  rewrite tryLoadLargeDiff_at, calls_after. cbn [calls]. rewrite app_nil_r.
  destruct (attempts_bounded file 5 t) as [Ha _].
  destruct (tryLoadLoop_summary file 5 t) as (Hw & Hms & _).
  repeat split; lia.
Qed.

(** The host calls of a run of the extractor: queries, and between them
    the calls of the load-diff sub-protocol if it ran. *)
Lemma processDiff_calls_cases (file : Live) (t : nat) :
  exists queries,
    (attempts queries = 0 /\ waits queries = 0 /\ sleptMs queries = 0
     /\ clickedLabels queries = [])
    /\ (calls (processDiff file t) = queries
        \/ calls (processDiff file t)
           = queries ++ calls (tryLoadLargeDiff file t) ++ lineCalls).
Proof.
  destruct (hasPath (file t)) eqn:Hp.
  2:{ rewrite (processDiff_skip file t Hp). eexists. split; [|left; reflexivity].
      repeat split. }
  destruct (hasPath_link _ Hp) as (link & Hl & Hn).
  destruct (Dom.querySelector selBinary (file t)) as [marker|] eqn:Hb.
  { rewrite (processDiff_binary file t link Hl Hn marker Hb).
    eexists. split; [|left; reflexivity]. repeat split. }
  destruct (value (isNewFile file t)) eqn:Hnew.
  { rewrite (processDiff_new file t link Hl Hn Hb Hnew).
    eexists. split; [|left; reflexivity].
    destruct (isNewFile_calls file t) as [-> | ->]; repeat split. }
  destruct (hasLines (file t)) eqn:Hlines.
  { rewrite (processDiff_plain file t link Hl Hn Hb Hnew Hlines).
    eexists. split; [|left; reflexivity].
    destruct (isNewFile_calls file t) as [-> | ->]; repeat split. }
  pose proof (processDiff_loads file t link Hl Hn Hb Hnew Hlines) as E.
  cbv zeta in E. rewrite E. cbn [calls].
  exists ([Query (Dom.css selPathLink); Query (Dom.css selBinary)]
            ++ calls (isNewFile file t) ++ lineCalls).
  split.
  - destruct (isNewFile_calls file t) as [-> | ->]; repeat split.
  - right. now rewrite <- !app_assoc.
Qed.

(** The waits of one run of the extractor. *)
Lemma processDiff_waits (file : Live) (t : nat) :
  waits (calls (processDiff file t)) <= 5
  /\ finish (processDiff file t) = t + waits (calls (processDiff file t)).
Proof.
  pose proof (timed_processDiff file t) as T.
  destruct (load_measures file t) as (_ & Lw & _).
  assert (Zw : waits lineCalls = 0) by reflexivity.
  destruct (processDiff_calls_cases file t) as (q & (_ & Hw & _) & [E|E]);
    rewrite E in *; rewrite ?waits_app in *; split; lia.
Qed.

(** X13: whatever the section, one run of the extractor on it starts at
    most 5 attempts of the load-diff sub-protocol, makes at most 5 timed
    waits, of 5 times 1200 ms at most in all, and ends as many waits after
    its start as it made. *)
Theorem processDiff_cost (file : Live) (t : nat) :
  attempts (calls (processDiff file t)) <= 5
  /\ waits (calls (processDiff file t)) <= 5
  /\ sleptMs (calls (processDiff file t)) <= 5 * 1200
  /\ finish (processDiff file t) = t + waits (calls (processDiff file t)).
Proof.
  pose proof (timed_processDiff file t) as T.
  destruct (load_measures file t) as (La & Lw & Ls).
  assert (Z : attempts lineCalls = 0 /\ waits lineCalls = 0 /\ sleptMs lineCalls = 0)
    by (repeat split).
  destruct Z as (Za & Zw & Zs).
  destruct (processDiff_calls_cases file t) as (q & (Ha & Hw & Hs & _) & [E|E]);
    rewrite E in *;
    rewrite ?attempts_app, ?waits_app, ?sleptMs_app in *;
    repeat split; lia.
Qed.

(* ================================================================== *)
(** ** What every run keeps, whatever throws *)

Lemma bindR_cases {A B} (m : Run A) (k : A -> Run B) (w : World) :
  (exists a w1, m w = (Returned a, w1) /\ bindR m k w = k a w1)
  \/ (exists e w1, m w = (Thrown e, w1) /\ bindR m k w = (Thrown e, w1)).
Proof.
  unfold bindR. destruct (m w) as [[a|e] w1].
  - left. now exists a, w1.
  - right. now exists e, w1.
Qed.

Section Keeps.
Variable R : World -> World -> Prop.
Hypothesis R_refl : forall w, R w w.
Hypothesis R_trans : forall w1 w2 w3, R w1 w2 -> R w2 w3 -> R w1 w3.
Variable faults : nat -> bool.

Lemma keeps_ret {A} (a : A) : keeps R (retR a).
Proof. intros w. apply R_refl. Qed.

Lemma keeps_bind {A B} (m : Run A) (k : A -> Run B) :
  keeps R m -> (forall a, keeps R (k a)) -> keeps R (bindR m k).
Proof.
  intros Hm Hk w. specialize (Hm w).
  destruct (bindR_cases m k w) as [(a & w1 & E & ->)|(e & w1 & E & ->)];
    rewrite E in Hm; cbn [snd] in *; [|exact Hm].
  exact (R_trans _ _ _ Hm (Hk a w1)).
Qed.

Lemma keeps_modify (f : World -> World) :
  (forall w, R w (f w)) -> keeps R (modify f).
Proof. intros H w. apply H. Qed.

Lemma keeps_read {A} (f : World -> A) : keeps R (fun w => (Returned (f w), w)).
Proof. intros w. apply R_refl. Qed.

(** The log gets one more call. *)
Hypothesis R_log : forall w c, R w (withTrace (trace w ++ [c]) w).
(** A wait is over. *)
Hypothesis R_tick : forall w, R w (withClock (S (clock w)) w).

Lemma keeps_host (c : HostCall) : keeps R (host faults c).
Proof. intros w. unfold host. destruct (faults _); apply R_log. Qed.

Lemma keeps_replay (cs : list HostCall) : keeps R (replay faults cs).
Proof.
  induction cs as [|c cs IH]; cbn [replay]; [apply keeps_ret|].
  apply keeps_bind; [apply keeps_host|]. intros _.
  apply keeps_bind; [|intros _; exact IH].
  destruct c; try apply keeps_ret. apply keeps_modify. apply R_tick.
Qed.

Lemma keeps_liftP {A} (p : Probe A) : keeps R (liftP faults p).
Proof.
  intros w. unfold liftP.
  apply (keeps_bind (replay faults (calls (p (clock w)))) (fun _ => retR (value (p (clock w))))).
  - apply keeps_replay.
  - intros _. apply keeps_ret.
Qed.

Lemma keeps_forEach {A} (l : list A) (f : A -> Run unit) :
  (forall x, keeps R (f x)) -> keeps R (forEach l f).
Proof.
  intros H. induction l as [|x l IH]; cbn [forEach]; [apply keeps_ret|].
  apply keeps_bind; [apply H | intros _; exact IH].
Qed.

(** The progress element is shown, hidden or written to. *)
Hypothesis R_display : forall w d, R w (withDisplay d w).
Hypothesis R_text : forall w p, R w (withText p w).

Lemma keeps_updateProgress (current total : nat) (message : option string) :
  keeps R (updateProgress current total message).
Proof.
  apply keeps_modify. intros w.
  exact (R_trans _ _ _ (R_display w DisplayBlock) (R_text _ _)).
Qed.

Lemma keeps_queryFiles (page : Page) : keeps R (queryFiles faults page).
Proof.
  unfold queryFiles. apply keeps_bind; [apply keeps_host|].
  intros _. apply (keeps_read (fun w => sections page (clock w))).
Qed.

Lemma keeps_loadLoop (page : Page) (n : nat) :
  forall last stable, keeps R (loadLoop faults page n last stable).
Proof.
  induction n as [|n IH]; intros last stable; cbn [loadLoop]; [apply keeps_ret|].
  apply keeps_bind; [apply keeps_host|]. intros _.
  apply keeps_bind; [apply keeps_liftP|]. intros controls.
  apply keeps_bind; [apply keeps_forEach; intros btn; apply keeps_liftP|]. intros _.
  apply keeps_bind; [apply keeps_liftP|]. intros _.
  apply keeps_bind; [apply keeps_queryFiles|]. intros files.
  apply keeps_bind; [apply keeps_updateProgress|]. intros _.
  destruct (3 <=? _); [apply keeps_ret | apply IH].
Qed.

Lemma keeps_loadAllDiffs (page : Page) : keeps R (loadAllDiffs faults page).
Proof.
  unfold loadAllDiffs.
  apply keeps_bind; [apply keeps_loadLoop|]. intros _.
  apply keeps_bind; [apply keeps_host|]. intros _.
  apply keeps_modify. intros w. apply R_display.
Qed.

(** An entry is written into the archive. *)
Hypothesis R_put :
  forall w name content, R w (withZip (zipPut name content (zipFiles w)) w).

Lemma keeps_exportLoop (files : list Live) :
  forall total processed, keeps R (exportLoop faults files total processed).
Proof.
  induction files as [|file files IH]; intros total processed; cbn [exportLoop];
    [apply keeps_ret|].
  apply keeps_bind; [apply keeps_liftP|]. intros [diff|].
  - apply keeps_bind.
    + apply keeps_bind; [apply keeps_host|]. intros _.
      apply keeps_modify. intros w. apply R_put.
    + intros _. apply keeps_bind; [apply keeps_updateProgress | intros _; apply IH].
  - apply keeps_bind; [apply keeps_ret|].
    intros _. apply keeps_bind; [apply keeps_updateProgress | intros _; apply IH].
Qed.

(** The part of the body of [exportDiffs] before [saveAs] is called. *)
Lemma keeps_export_until_save (page : Page) :
  keeps R
    (bindR (queryFiles faults page) (fun files =>
     bindR (host faults (ZipFolder "diffs")) (fun _ =>
     bindR (exportLoop faults files (length files) 0) (fun _ =>
     host faults GenerateAsync)))).
Proof.
  apply keeps_bind; [apply keeps_queryFiles|]. intros files.
  apply keeps_bind; [apply keeps_host|]. intros _.
  apply keeps_bind; [apply keeps_exportLoop|]. intros _.
  apply keeps_host.
Qed.

(** An archive is saved. *)
Hypothesis R_save : forall w d, R w (withDownloads (downloads w ++ [d]) w).

Lemma keeps_exportBody (page : Page) : keeps R (exportBody faults page).
Proof.
  unfold exportBody.
  apply keeps_bind; [apply keeps_queryFiles|]. intros files.
  apply keeps_bind; [apply keeps_host|]. intros _.
  apply keeps_bind; [apply keeps_exportLoop|]. intros _.
  apply keeps_bind; [apply keeps_host|]. intros _.
  apply keeps_bind; [apply (keeps_read zipFiles)|]. intros zipBlob.
  apply keeps_bind; [apply keeps_host|]. intros _.
  apply keeps_modify. intros w. apply R_save.
Qed.

(** The control is disabled or enabled. *)
Hypothesis R_disabled : forall w b, R w (withDisabled b w).

Lemma keeps_tryCatchFinally {A} (body : Run A) (handler : nat -> Run A)
    (finalizer : Run unit) :
  keeps R body -> (forall e, keeps R (handler e)) -> keeps R finalizer ->
  keeps R (tryCatchFinally body handler finalizer).
Proof.
  intros Hb Hh Hf w. unfold tryCatchFinally.
  specialize (Hb w). destruct (body w) as [[a|e] w1]; cbn [snd] in Hb.
  - specialize (Hf w1). destruct (finalizer w1) as [[u|e] w3]; cbn [snd] in *;
      exact (R_trans _ _ _ Hb Hf).
  - specialize (Hh e w1). destruct (handler e w1) as [o' w2]; cbn [snd] in Hh.
    specialize (Hf w2). destruct (finalizer w2) as [[u|e'] w3]; cbn [snd] in *;
      exact (R_trans _ _ _ Hb (R_trans _ _ _ Hh Hf)).
Qed.

Lemma keeps_exportDiffs (page : Page) : keeps R (exportDiffs faults page).
Proof.
  unfold exportDiffs. apply keeps_tryCatchFinally.
  - apply keeps_exportBody.
  - intros e. apply keeps_bind; [apply keeps_host | intros _; apply keeps_host].
  - apply keeps_modify. intros w.
    exact (R_trans _ _ _ (R_disabled w false) (R_display _ _)).
Qed.

Lemma keeps_handleExportClick (page : Page) : keeps R (handleExportClick faults page).
Proof.
  unfold handleExportClick.
  apply keeps_bind; [apply keeps_modify; intros w; apply R_disabled|]. intros _.
  apply keeps_bind; [apply keeps_updateProgress|]. intros _.
  apply keeps_bind; [apply keeps_loadAllDiffs|]. intros _.
  apply keeps_exportDiffs.
Qed.

End Keeps.


Lemma zipPut_names (name content : string) (z : Archive) :
  exists added, map fst (zipPut name content z) = map fst z ++ added.
Proof.
  induction z as [|[n c] z (added & IH)]; cbn [zipPut].
  - now exists [name].
  - destruct (String.eqb n name).
    + exists []. now rewrite app_nil_r.
    + exists added. cbn [map fst]. now rewrite IH.
Qed.

Lemma namesKept_handleExportClick (faults : nat -> bool) (page : Page) :
  keeps namesKept (handleExportClick faults page).
Proof.
  apply keeps_handleExportClick; unfold namesKept.
  - intros w. exists []. now rewrite app_nil_r.
  - intros w1 w2 w3 (a & Ha) (b & Hb). exists (a ++ b). now rewrite Hb, Ha, app_assoc.
  - intros w c. exists []. now rewrite app_nil_r.
  - intros w. exists []. now rewrite app_nil_r.
  - intros w d. exists []. now rewrite app_nil_r.
  - intros w p. exists []. now rewrite app_nil_r.
  - intros w name content. apply zipPut_names.
  - intros w d. exists []. now rewrite app_nil_r.
  - intros w b. exists []. now rewrite app_nil_r.
Qed.

Lemma savedKept_handleExportClick (faults : nat -> bool) (page : Page) :
  keeps savedKept (handleExportClick faults page).
Proof.
  apply keeps_handleExportClick; unfold savedKept.
  - intros w. exists []. now rewrite app_nil_r.
  - intros w1 w2 w3 (a & Ha) (b & Hb). exists (a ++ b). now rewrite Hb, Ha, app_assoc.
  - intros w c. exists []. now rewrite app_nil_r.
  - intros w. exists []. now rewrite app_nil_r.
  - intros w d. exists []. now rewrite app_nil_r.
  - intros w p. exists []. now rewrite app_nil_r.
  - intros w name content. exists []. now rewrite app_nil_r.
  - intros w d. now exists [d].
  - intros w b. exists []. now rewrite app_nil_r.
Qed.

(** X14: the exporter keeps one archive for all its runs and never empties
    it: after a triggered run, whatever throws in it, the archive still has
    every entry name it had before, in the same order, with the new names
    after them; and the files saved before are still there. *)
Theorem archive_outlives_the_run (faults : nat -> bool) (page : Page) (w : World) :
  (exists added,
     map fst (zipFiles (snd (handleExportClick faults page w)))
     = map fst (zipFiles w) ++ added)
  /\ (exists added,
        downloads (snd (handleExportClick faults page w)) = downloads w ++ added).
Proof.
  split.
  - exact (namesKept_handleExportClick faults page w).
  - exact (savedKept_handleExportClick faults page w).
Qed.

Lemma untouched_loadAllDiffs (faults : nat -> bool) (page : Page) :
  keeps untouched (loadAllDiffs faults page).
Proof.
  apply keeps_loadAllDiffs; unfold untouched.
  - intros w. repeat split.
  - intros w1 w2 w3 (B & Z & D) (B' & Z' & D'). repeat split; congruence.
  - intros w c. repeat split.
  - intros w. repeat split.
  - intros w d. repeat split.
  - intros w p. repeat split.
Qed.

(** X15: the loading phase never touches the control, the archive or the
    saved files, whatever throws in it; so when [loadAllDiffs] throws, the
    triggered run ends with that error, [exportDiffs] is not entered, the
    control stays disabled, and nothing is written or saved. *)
Theorem load_error_ends_the_run (faults : nat -> bool) (page : Page) (w : World)
    (e : nat) :
  fst (loadAllDiffs faults page (clicked w)) = Thrown e ->
  fst (handleExportClick faults page w) = Thrown e
  /\ buttonDisabled (snd (handleExportClick faults page w)) = true
  /\ zipFiles (snd (handleExportClick faults page w)) = zipFiles w
  /\ downloads (snd (handleExportClick faults page w)) = downloads w.
Proof.
  intros Hload.
  assert (E : handleExportClick faults page w
              = bindR (loadAllDiffs faults page) (fun _ => exportDiffs faults page)
                  (clicked w)) by reflexivity.
  rewrite E. unfold bindR.
  pose proof (untouched_loadAllDiffs faults page (clicked w)) as (B & Z & D).
  destruct (loadAllDiffs faults page (clicked w)) as [[[]|e'] w1];
    cbn [fst snd] in *; [discriminate|].
  injection Hload as ->. repeat split; assumption.
Qed.

Lemma load_error_ends_the_run_witness :
  fst (handleExportClick Sample.firstCallThrows Sample.twoFiles constructed) = Thrown 0
  /\ buttonDisabled
       (snd (handleExportClick Sample.firstCallThrows Sample.twoFiles constructed)) = true
  /\ downloads
       (snd (handleExportClick Sample.firstCallThrows Sample.twoFiles constructed)) = [].
Proof.
  destruct (load_error_ends_the_run Sample.firstCallThrows Sample.twoFiles constructed 0
              eq_refl) as (Ht & Hb & _ & Hd).
  split; [exact Ht|]. split; [exact Hb | exact Hd].
Defined.

Lemma nothingSaved_until_save (faults : nat -> bool) (page : Page) :
  keeps nothingSaved
    (bindR (queryFiles faults page) (fun files =>
     bindR (host faults (ZipFolder "diffs")) (fun _ =>
     bindR (exportLoop faults files (length files) 0) (fun _ =>
     host faults GenerateAsync)))).
Proof.
  apply keeps_export_until_save; unfold nothingSaved.
  - reflexivity.
  - intros w1 w2 w3 H1 H2. congruence.
  - reflexivity.
  - reflexivity.
  - reflexivity.
  - reflexivity.
  - reflexivity.
Qed.

Lemma bindR_ext {A B} (m : Run A) (k k' : A -> Run B) (w : World) :
  (forall a w', k a w' = k' a w') -> bindR m k w = bindR m k' w.
Proof. intros H. unfold bindR. destruct (m w) as [[a|e] w']; [apply H | reflexivity]. Qed.

(** The body of [exportDiffs]: the part before [saveAs], then the save. *)
Lemma exportBody_split (faults : nat -> bool) (page : Page) (w : World) :
  exportBody faults page w =
    bindR
      (bindR (queryFiles faults page) (fun files =>
       bindR (host faults (ZipFolder "diffs")) (fun _ =>
       bindR (exportLoop faults files (length files) 0) (fun _ =>
       host faults GenerateAsync))))
      (fun _ =>
       bindR (fun w => (Returned (zipFiles w), w)) (fun zipBlob =>
       bindR (host faults (SaveAs (archiveName (pathname page)))) (fun _ =>
       modify (fun w =>
         withDownloads (downloads w ++ [(archiveName (pathname page), zipBlob)]) w))))
      w.
Proof.
  unfold exportBody. symmetry.
  rewrite bindR_assoc. apply bindR_ext. intros files w1.
  rewrite bindR_assoc. apply bindR_ext. intros u w2.
  rewrite bindR_assoc. apply bindR_ext. intros u' w3.
  reflexivity.
Qed.

(** What the body of [exportDiffs] leaves, by its outcome. *)
Lemma exportBody_outcome (faults : nat -> bool) (page : Page) (w : World) :
  match exportBody faults page w with
  | (Returned _, w') =>
      downloads w' = downloads w ++ [(archiveName (pathname page), zipFiles w')]
  | (Thrown _, w') => downloads w' = downloads w
  end.
Proof.
  rewrite exportBody_split.
  pose proof (nothingSaved_until_save faults page w) as N. unfold nothingSaved in N.
  unfold bindR at 1.
  destruct (bindR (queryFiles faults page) _ w) as [[[]|e] w1]; cbn [snd] in N;
    [|exact N].
  unfold bindR at 1. unfold bindR at 1. unfold host, modify.
  destruct (faults (length (trace w1))); cbn; now rewrite N.
Qed.


(** X16: [exportDiffs] saves the whole archive or nothing, and always
    leaves the exporter idle.  When its body returns, it returns, and
    exactly one file has been saved: the archive as the exporter then holds
    it, under the name made from the page's path.  When its body throws,
    wherever that is, nothing has been saved and [console.error] has been
    called. *)
Theorem export_saves_all_or_nothing (faults : nat -> bool) (page : Page) (w : World) :
  idle (snd (exportDiffs faults page w))
  /\ (fst (exportBody faults page w) = Returned tt ->
      fst (exportDiffs faults page w) = Returned tt
      /\ downloads (snd (exportDiffs faults page w))
         = downloads w
           ++ [(archiveName (pathname page), zipFiles (snd (exportDiffs faults page w)))])
  /\ (forall e, fst (exportBody faults page w) = Thrown e ->
      downloads (snd (exportDiffs faults page w)) = downloads w
      /\ In ConsoleError (trace (snd (exportDiffs faults page w)))).
Proof.
  pose proof (exportBody_outcome faults page w) as O.
  unfold exportDiffs, tryCatchFinally.
  destruct (exportBody faults page w) as [[[]|e] w1]; cbn [fst snd modify].
  - split; [split; reflexivity|]. split; [|discriminate].
    intros _. split; [reflexivity | exact O].
  - unfold bindR, host.
    destruct (faults (length (trace w1))); cbn [fst snd].
    + split; [split; reflexivity|]. split; [discriminate|].
      intros e' _. cbn. split; [exact O|]. apply in_or_app. right. now left.
    + destruct (faults _); cbn [fst snd];
        (split; [split; reflexivity|]); (split; [discriminate|]);
        intros e' _; cbn; (split; [exact O|]);
        apply in_or_app; left; apply in_or_app; right; now left.
Qed.

Lemma export_saves_all_or_nothing_witness :
  downloads (snd (exportDiffs (fun n => n =? 3) Sample.twoFiles constructed)) = []
  /\ In ConsoleError (trace (snd (exportDiffs (fun n => n =? 3) Sample.twoFiles constructed)))
  /\ map fst (downloads (snd (exportDiffs noFaults Sample.twoFiles constructed)))
     = ["repo-pr12-diffs.zip"].
Proof.
  split; [|split].
  - apply (proj2 (proj2 (export_saves_all_or_nothing (fun n => n =? 3) Sample.twoFiles
                           constructed)) 3).
    reflexivity.
  - apply (proj2 (proj2 (export_saves_all_or_nothing (fun n => n =? 3) Sample.twoFiles
                           constructed)) 3).
    reflexivity.
  - destruct (proj1 (proj2 (export_saves_all_or_nothing noFaults Sample.twoFiles
                              constructed)) eq_refl) as [_ D].
    rewrite D. reflexivity.
Defined.

(* ================================================================== *)
(** ** An export in which nothing throws *)

Lemma produced_length (results : list (option DiffHunk)) :
  length (produced results) <= length results.
Proof.
  induction results as [|[d|] rs IH]; cbn; lia.
Qed.

(** The loop of [exportDiffs] on any sections: the records that the
    extractor yields are written in their order, the others are passed
    over. *)
Lemma exportLoop_noFaults_any (files : list Live) :
  forall (total processed : nat) (w : World),
    exists w',
      exportLoop noFaults files total processed w = (Returned tt, w')
      /\ zipFiles w'
         = fold_left putEntry (map entryOf (produced (extractAll files (clock w))))
             (zipFiles w)
      /\ downloads w' = downloads w
      /\ buttonDisabled w' = buttonDisabled w
      /\ clock w <= clock w' <= clock w + 5 * length files
      /\ (files <> [] ->
          progressText w' = Processing (processed + length files) total
          /\ progressDisplay w' = DisplayBlock).
Proof.
  induction files as [|file files IH]; intros total processed w.
  - exists w. cbn. repeat split; try lia; congruence.
  - cbn [exportLoop extractAll].
    destruct (liftP_noFaults (processDiff file) w) as (w1 & E & M).
    rewrite (bindR_returned _ _ _ _ _ E).
    destruct M as (C & _ & B & _ & _ & Z & L).
    destruct (processDiff_waits file (clock w)) as (Hw & Hf).
    set (w2 := match value (processDiff file (clock w)) with
               | Some diff =>
                   withZip (zipPut (fst (entryOf diff)) (snd (entryOf diff)) (zipFiles w1))
                     (withTrace (trace w1 ++ [ZipFile (fst (entryOf diff))]) w1)
               | None => w1
               end).
    set (w3 := withText (Processing (S processed) total) (withDisplay DisplayBlock w2)).
    assert (Estep :
      bindR
        (bindR
           match value (processDiff file (clock w)) with
           | Some diff =>
               bindR (host noFaults (ZipFile ("diffs/" ++ Hunk.baseName diff ++ ".md")))
                 (fun _ => modify (fun w0 =>
                    withZip (zipPut ("diffs/" ++ Hunk.baseName diff ++ ".md")
                               (createMarkdownContent diff) (zipFiles w0)) w0))
           | None => retR tt
           end
           (fun _ => updateProgress (S processed) total None))
        (fun _ => exportLoop noFaults files total (S processed)) w1
      = exportLoop noFaults files total (S processed) w3).
    { subst w3 w2. destruct (value (processDiff file (clock w))); reflexivity. }
    rewrite <- bindR_assoc, Estep.
    destruct (IH total (S processed) w3) as (w' & E' & Z' & L' & B' & C' & P').
    assert (C3 : clock w3 = finish (processDiff file (clock w))).
    { subst w3 w2. destruct (value (processDiff file (clock w)));
        cbn [clock withText withDisplay withZip withTrace]; lia. }
    exists w'. split; [exact E'|]. split; [|split; [|split; [|split]]].
    + rewrite Z', C3.
      subst w3 w2. destruct (value (processDiff file (clock w)));
        cbn [zipFiles withText withDisplay withZip withTrace produced map fold_left];
        rewrite Z; reflexivity.
    + rewrite L'. subst w3 w2.
      destruct (value (processDiff file (clock w)));
        cbn [downloads withText withDisplay withZip withTrace]; exact L.
    + rewrite B'. subst w3 w2.
      destruct (value (processDiff file (clock w)));
        cbn [buttonDisabled withText withDisplay withZip withTrace]; exact B.
    + rewrite C3 in C'. cbn [length]. lia.
    + intros _. destruct files as [|f fs].
      * cbn in E'. injection E' as <-. subst w3. cbn [length progressText
          progressDisplay withText withDisplay].
        split; [f_equal; lia | reflexivity].
      * destruct (P' ltac:(discriminate)) as [Pt Pd].
        split; [|exact Pd]. rewrite Pt. f_equal. cbn [length]. lia.
Qed.



Lemma zipPut_length (name content : string) (z : Archive) :
  length (zipPut name content z) <= S (length z).
Proof.
  induction z as [|[n c] z IH]; cbn [zipPut]; [cbn; lia|].
  destruct (String.eqb n name); cbn [length]; lia.
Qed.





Lemma fold_put_length (es : list (string * string)) :
  forall z, length (fold_left putEntry es z) <= length z + length es.
Proof.
  induction es as [|e es IH]; intros z; cbn [fold_left length]; [lia|].
  specialize (IH (putEntry z e)).
  pose proof (zipPut_length (fst e) (snd e) z). unfold putEntry in *. lia.
Qed.



(** The body of [exportDiffs] when nothing throws. *)
Lemma exportBody_noFaults_any (page : Page) (w : World) :
  exists w',
    exportBody noFaults page w = (Returned tt, w')
    /\ zipFiles w'
       = fold_left putEntry
           (map entryOf (produced (extractAll (sections page (clock w)) (clock w))))
           (zipFiles w)
    /\ buttonDisabled w' = buttonDisabled w
    /\ clock w <= clock w' <= clock w + 5 * length (sections page (clock w))
    /\ (sections page (clock w) <> [] ->
        progressText w'
        = Processing (length (sections page (clock w))) (length (sections page (clock w)))).
Proof.
  unfold exportBody, queryFiles.
  rewrite bindR_assoc.
  rewrite (bindR_returned _ _ _ _ _ (host_noFaults _ w)).
  match goal with
  | |- context [bindR ?m ?k ?x] =>
      change (bindR m k x) with (k (sections page (clock w)) x)
  end.
  cbv beta.
  rewrite (bindR_returned _ _ _ _ _ (host_noFaults _ _)).
  match goal with
  | |- context [bindR (exportLoop _ _ _ _) _ ?x] =>
      destruct (exportLoop_noFaults_any (sections page (clock w))
                  (length (sections page (clock w))) 0 x)
        as (w1 & E & Z & L & B & C & P)
  end.
  rewrite (bindR_returned _ _ _ _ _ E).
  rewrite (bindR_returned _ _ _ _ _ (host_noFaults _ w1)).
  match goal with
  | |- context [bindR ?m ?k ?x] =>
      change (bindR m k x) with (k (zipFiles x) x)
  end.
  cbv beta zeta.
  rewrite (bindR_returned _ _ _ _ _ (host_noFaults _ _)).
  unfold modify.
  eexists. split; [reflexivity|].
  cbn [zipFiles buttonDisabled clock progressText withDownloads withTrace] in *.
  split; [exact Z|]. split; [exact B|]. split; [exact C|].
  intros Hne. exact (proj1 (P Hne)).
Qed.

(** X17: an export in which nothing throws always returns, leaves the
    exporter idle and has saved exactly one more file: the archive as the
    exporter holds it, named after the page's path.  It has written at most
    one entry per section, has waited at most 5 times per section, and the
    last progress it reported is N of N for the N sections it was given. *)
Theorem export_without_faults (page : Page) (w : World) :
  exists w',
    exportDiffs noFaults page w = (Returned tt, w')
    /\ idle w'
    /\ downloads w' = downloads w ++ [(archiveName (pathname page), zipFiles w')]
    /\ length (zipFiles w') <= length (zipFiles w) + length (sections page (clock w))
    /\ clock w <= clock w' <= clock w + 5 * length (sections page (clock w))
    /\ (sections page (clock w) <> [] ->
        progressText w'
        = Processing (length (sections page (clock w))) (length (sections page (clock w)))).
Proof.
  destruct (exportBody_noFaults_any page w) as (w1 & E & Z & B & C & P).
  pose proof (exportBody_outcome noFaults page w) as O. rewrite E in O.
  unfold exportDiffs, tryCatchFinally. rewrite E. cbn [modify].
  eexists. split; [reflexivity|].
  cbn [downloads zipFiles clock progressText withDisplay withDisabled].
  split; [split; reflexivity|]. split; [exact O|].
  split; [|split; [exact C | exact P]].
  rewrite Z.
  pose proof (fold_put_length
                (map entryOf (produced (extractAll (sections page (clock w)) (clock w))))
                (zipFiles w)) as Hl.
  rewrite length_map in Hl.
  pose proof (produced_length (extractAll (sections page (clock w)) (clock w))) as Hp.
  rewrite extractAll_length in Hp. lia.
Qed.




(* ================================================================== *)
(** ** The name of the saved file *)

Lemma split_head (sep : ascii) (a rest : string) :
  JS.occurs sep a = false ->
  JS.split sep (a ++ String sep rest) = a :: JS.split sep rest.
Proof.
  induction a as [|c a IH]; cbn [JS.occurs append JS.split]; intros H.
  - now rewrite Ascii.eqb_refl.
  - apply orb_false_iff in H as [Hc Ha]. rewrite Hc, (IH Ha). reflexivity.
Qed.

(** X19: on a page whose path is [/owner/repo/kind/number], with or
    without more segments after the number, the archive is saved as
    [repo-prnumber-diffs.zip]; on a page whose path stops at [/owner/repo]
    the fifth segment is missing and the name is
    [repo-prundefined-diffs.zip]. *)
Theorem archiveName_from_path (owner repo kind number more : string) :
  JS.occurs slash owner = false ->
  JS.occurs slash repo = false ->
  JS.occurs slash kind = false ->
  JS.occurs slash number = false ->
  archiveName
    (String slash (owner ++ String slash (repo ++ String slash
       (kind ++ String slash (number ++ String slash more)))))
  = (repo ++ "-pr" ++ number ++ "-diffs.zip")%string
  /\ archiveName
       (String slash (owner ++ String slash (repo ++ String slash
          (kind ++ String slash number))))
     = (repo ++ "-pr" ++ number ++ "-diffs.zip")%string
  /\ archiveName (String slash (owner ++ String slash repo))
     = (repo ++ "-prundefined-diffs.zip")%string.
Proof.
  intros Ho Hr Hk Hn. unfold archiveName.
  assert (H0 : forall rest, JS.split slash (String slash rest)
                            = EmptyString :: JS.split slash rest).
  { intros rest. cbn [JS.split]. now rewrite Ascii.eqb_refl. }
  repeat split.
  - rewrite H0, (split_head slash owner _ Ho), (split_head slash repo _ Hr),
      (split_head slash kind _ Hk), (split_head slash number _ Hn).
    reflexivity.
  - rewrite H0, (split_head slash owner _ Ho), (split_head slash repo _ Hr),
      (split_head slash kind _ Hk), (split_whole slash number Hn).
    reflexivity.
  - rewrite H0, (split_head slash owner _ Ho), (split_whole slash repo Hr).
    reflexivity.
Qed.

Lemma archiveName_from_path_witness :
  archiveName "/octo/repo/pull/12/files" = "repo-pr12-diffs.zip"
  /\ archiveName "/octo/repo/pull/12" = "repo-pr12-diffs.zip"
  /\ archiveName "/octo/repo" = "repo-prundefined-diffs.zip".
Proof.
  apply (archiveName_from_path "octo" "repo" "pull" "12" "files"); reflexivity.
Defined.


(* ================================================================== *)
(** ** More on the page loader *)

Section MorePageLoader.
Variable page : Page.

(** One iteration when nothing throws, in full. *)
Lemma loadLoop_iteration_full (n last stable : nat) (w : World) :
  exists w1 cs,
    loadLoop noFaults page (S n) last stable w =
      (let count := length (sections page (S (clock w))) in
       let stable' := if count =? last then S stable else 0 in
       if 3 <=? stable' then (Returned tt, w1)
       else loadLoop noFaults page n count stable' w1)
    /\ trace w1 = trace w ++ cs
    /\ cs = [ScrollTo true; Query (Dom.css selControls)]
            ++ map (fun btn => Click (Dom.textContent btn))
                 (filter wantsMore
                    (Dom.querySelectorAll selControls (document page (clock w))))
            ++ [Sleep 800; Query (Dom.css selFile)]
    /\ clock w1 = S (clock w)
    /\ untouched w w1
    /\ progressDisplay w1 = DisplayBlock
    /\ progressText w1 = loadingMessage (length (sections page (S (clock w)))).
Proof.
  cbn [loadLoop].
  rewrite (bindR_returned _ _ _ _ _ (host_noFaults (ScrollTo true) w)).
  set (w0 := withTrace (trace w ++ [ScrollTo true]) w).
  destruct (liftP_noFaults (querySelectorAll selControls (document page)) w0)
    as (w2 & E2 & M2).
  rewrite (bindR_returned _ _ _ _ _ E2).
  cbn [querySelectorAll value calls] in *.
  destruct (clicks_noFaults
              (filter wantsMore (Dom.querySelectorAll selControls (document page (clock w0))))
              w2) as (w3 & E3 & M3).
  rewrite (bindR_returned _ _ _ _ _ E3).
  destruct (liftP_noFaults (sleep 800) w3) as (w4 & E4 & M4).
  rewrite (bindR_returned _ _ _ _ _ E4).
  cbn [sleep value calls] in *.
  unfold queryFiles.
  rewrite (bindR_returned _ _ _ _ _
             (bindR_returned _ _ _ _ _ (host_noFaults (Query (Dom.css selFile)) w4))).
  cbn [clock withTrace].
  destruct M2 as (C2 & T2 & B2 & _ & _ & Z2 & L2),
           M3 as (C3 & T3 & B3 & _ & _ & Z3 & L3),
           M4 as (C4 & T4 & B4 & _ & _ & Z4 & L4).
  rewrite waits_clicks in C3. cbn in C2, C4.
  assert (C : clock w4 = S (clock w)) by (subst w0; cbn in C2; lia).
  rewrite C.
  set (count := length (sections page (S (clock w)))).
  set (stable' := if count =? last then S stable else 0).
  match goal with
  | |- context [bindR (updateProgress ?a ?b ?c) ?k ?x] =>
      set (w5 := snd (updateProgress a b c x));
      change (bindR (updateProgress a b c) k x) with (k tt w5)
  end.
  assert (W5 : w5 = withText (loadingMessage count)
                      (withDisplay DisplayBlock
                         (withTrace (trace w4 ++ [Query (Dom.css selFile)]) w4))).
  { subst w5. unfold updateProgress, modify, loadingMessage. cbn [snd].
    destruct (JS.nonEmpty _) eqn:Hm; [reflexivity|].
    exfalso. clear -Hm. discriminate Hm. }
  exists w5. eexists. split; [cbv beta zeta; destruct (3 <=? stable'); reflexivity|].
  rewrite W5. cbn [trace clock progressDisplay progressText withText withDisplay withTrace].
  split; [|split; [reflexivity|]].
  - rewrite T4, T3, T2. subst w0. cbn [trace withTrace clock].
    rewrite <- !app_assoc. reflexivity.
  - split; [exact C|]. split; [|split; reflexivity].
    unfold untouched.
    cbn [buttonDisabled zipFiles downloads withText withDisplay withTrace].
    subst w0. cbn in B2, Z2, L2. repeat split; congruence.
Qed.

Lemma clicks_are_loader_calls (btns : list Dom.Element) :
  forallb isLoaderCall (map (fun btn => Click (Dom.textContent btn)) btns) = true.
Proof. induction btns; [reflexivity | exact IHbtns]. Qed.

Lemma clickedLabels_clicks (btns : list Dom.Element) :
  clickedLabels (map (fun btn => Click (Dom.textContent btn)) btns)
  = map Dom.textContent btns.
Proof. induction btns as [|b l IH]; cbn; [reflexivity | now rewrite <- IH]. Qed.

Lemma sleptMs_clicks (btns : list Dom.Element) :
  sleptMs (map (fun btn => Click (Dom.textContent btn)) btns) = 0.
Proof. induction btns; [reflexivity | exact IHbtns]. Qed.

(** The whole loop when nothing throws: what it calls, what it clicks, what
    it leaves alone, and what the progress element says when it is left. *)
Lemma loadLoop_leaves (n : nat) :
  forall last stable w,
    exists w' cs,
      loadLoop noFaults page n last stable w = (Returned tt, w')
      /\ trace w' = trace w ++ cs
      /\ forallb isLoaderCall cs = true
      /\ clock w' = clock w + naps 800 cs
      /\ sleptMs cs = 800 * naps 800 cs
      /\ untouched w w'
      /\ (forall label, In label (clickedLabels cs) ->
            exists t' btn,
              clock w <= t' < clock w'
              /\ In btn (Dom.querySelectorAll selControls (document page t'))
              /\ wantsMore btn = true /\ Dom.textContent btn = label)
      /\ (0 < n ->
          progressText w' = loadingMessage (length (sections page (clock w')))
          /\ 0 < naps 800 cs).
Proof.
  induction n as [|n IH]; intros last stable w.
  - exists w, []. cbn. rewrite app_nil_r.
    repeat split; try lia; try contradiction.
  - destruct (loadLoop_iteration_full n last stable w)
      as (w1 & cs1 & E & T1 & Ecs & C1 & U1 & _ & P1).
    assert (F1 : forallb isLoaderCall cs1 = true
                 /\ naps 800 cs1 = 1 /\ sleptMs cs1 = 800
                 /\ clickedLabels cs1
                    = map Dom.textContent
                        (filter wantsMore
                           (Dom.querySelectorAll selControls (document page (clock w))))).
    { rewrite Ecs.
      rewrite !forallb_app, !naps_app, !sleptMs_app, !clickedLabels_app,
        clicks_are_loader_calls, naps_clicks, sleptMs_clicks, clickedLabels_clicks.
      cbn. rewrite app_nil_r. repeat split. }
    destruct F1 as (F1 & N1 & S1 & K1).
    assert (In1 : forall label, In label (clickedLabels cs1) ->
              exists t' btn,
                clock w <= t' < clock w1
                /\ In btn (Dom.querySelectorAll selControls (document page t'))
                /\ wantsMore btn = true /\ Dom.textContent btn = label).
    { intros label Hl. rewrite K1 in Hl.
      apply in_map_iff in Hl as (btn & Ht & Hin).
      apply filter_In in Hin as [Hin Hw].
      exists (clock w), btn. repeat split; try assumption; lia. }
    rewrite E. cbv zeta.
    destruct (3 <=? _).
    + exists w1, cs1. split; [reflexivity|]. split; [exact T1|]. split; [exact F1|].
      split; [lia|]. split; [lia|]. split; [exact U1|]. split; [exact In1|].
      intros _. rewrite C1. split; [exact P1 | lia].
    + destruct (IH (length (sections page (S (clock w))))
                  (if length (sections page (S (clock w))) =? last then S stable else 0) w1)
        as (w' & cs & E' & T' & F' & C' & S' & U' & In' & P').
      exists w', (cs1 ++ cs). split; [exact E'|].
      split; [rewrite T', T1; now rewrite app_assoc|].
      split; [rewrite forallb_app, F1, F'; reflexivity|].
      rewrite naps_app, sleptMs_app, clickedLabels_app.
      split; [lia|]. split; [lia|].
      split; [destruct U1 as (? & ? & ?), U' as (? & ? & ?); repeat split; congruence|].
      split.
      * intros label Hl. apply in_app_or in Hl as [Hl|Hl].
        -- destruct (In1 label Hl) as (t' & btn & Ht & H). exists t', btn.
           split; [lia | exact H].
        -- destruct (In' label Hl) as (t' & btn & Ht & H). exists t', btn.
           split; [lia | exact H].
      * intros _. split; [|lia].
        destruct n as [|n'].
        -- cbn in E'. injection E' as <-. rewrite C1. exact P1.
        -- apply P'. lia.
Qed.

(** X20: loading, when nothing throws, always returns.  It has only
    scrolled, queried, clicked and waited 800 ms at a time; every element it
    clicked was a button or summary of the document whose text then had
    [load more], [show more] or [expand]; its last call scrolls back to
    the top.  It leaves the control, the archive and the saved files as
    they were, the progress element hidden, and in it the message for the
    section count of the last observation. *)
Theorem loadAllDiffs_leaves (w : World) :
  exists w' cs,
    loadAllDiffs noFaults page w = (Returned tt, w')
    /\ trace w' = trace w ++ cs ++ [ScrollTo false]
    /\ forallb isLoaderCall cs = true
    /\ naps 800 cs = iterations page w
    /\ clock w' = clock w + iterations page w
    /\ sleptMs cs = 800 * iterations page w
    /\ untouched w w'
    /\ progressDisplay w' = DisplayNone
    /\ progressText w' = loadingMessage (length (sections page (clock w')))
    /\ (forall label, In label (clickedLabels cs) ->
          exists t' btn,
            clock w <= t' < clock w'
            /\ In btn (Dom.querySelectorAll selControls (document page t'))
            /\ wantsMore btn = true /\ Dom.textContent btn = label).
Proof.
  destruct (loadLoop_leaves maxTries 0 0 w)
    as (w1 & cs & E & T & F & C & S & U & Hin & P).
  destruct (P ltac:(unfold maxTries; lia)) as [Pt _].
  assert (It : iterations page w = naps 800 cs).
  { unfold iterations.
    rewrite (proj2 (loadAllDiffs_after_loop page w w1 E)), T, naps_app. lia. }
  unfold loadAllDiffs.
  rewrite (bindR_returned _ _ _ _ _ E).
  rewrite (bindR_returned _ _ _ _ _ (host_noFaults (ScrollTo false) w1)).
  unfold modify.
  eexists. exists cs. split; [reflexivity|].
  cbn [trace clock progressDisplay progressText withDisplay withTrace].
  rewrite It.
  split; [rewrite T; now rewrite app_assoc|].
  split; [exact F|]. split; [reflexivity|]. split; [exact C|]. split; [exact S|].
  split; [exact U|]. split; [reflexivity|]. split; [exact Pt | exact Hin].
Qed.

Lemma streak_le (t0 k : nat) : streak page t0 k <= k.
Proof.
  induction k as [|k IH]; [cbn; lia|].
  cbn [streak]. destruct (_ =? _); lia.
Qed.

(** Either the streak stays below 3 up to an observation, or there is a
    first observation at which it reaches 3. *)
Lemma first_stop (t0 n : nat) :
  (forall j, j <= n -> streak page t0 j < 3)
  \/ (exists k, k <= n /\ 3 <= streak page t0 k
                /\ forall j, j < k -> streak page t0 j < 3).
Proof.
  induction n as [|n [IH|(k & Hk & H3 & Hb)]].
  - left. intros j Hj. assert (j = 0) as -> by lia. cbn. lia.
  - destruct (le_lt_dec 3 (streak page t0 (S n))) as [H3|H3].
    + right. exists (S n). repeat split; [lia | exact H3|].
      intros j Hj. apply IH. lia.
    + left. intros j Hj. destruct (Nat.eq_dec j (S n)) as [->|Hne]; [exact H3|].
      apply IH. lia.
  - right. exists k. repeat split; [lia | exact H3 | exact Hb].
Qed.

(** The loop makes between 3 and [maxTries] iterations. *)
Lemma iterations_range (w : World) : 3 <= iterations page w <= maxTries.
Proof.
  destruct (loadLoop_counts page (clock w) maxTries 0 w)
    as (w1 & d & E & Hd & Hle & Hall & Hfirst); [lia | cbn; lia |].
  destruct (loadAllDiffs_after_loop page w w1 E) as [_ Hn].
  assert (It : iterations page w = d) by (unfold iterations; rewrite Hn, Hd; lia).
  rewrite It. split; [|exact Hle].
  destruct (first_stop (clock w) maxTries) as [H|(k & Hk & H3 & Hb)].
  - rewrite Hall; [unfold maxTries; lia|]. intros j Hj. apply H. lia.
  - pose proof (streak_le (clock w) k).
    rewrite (Hfirst k); [lia | | exact H3 |].
    + split; [lia | lia].
    + intros j Hj. apply Hb. lia.
Qed.

(** Loading when nothing throws, in short. *)
Lemma loadAllDiffs_noFaults_any (w : World) :
  exists w',
    loadAllDiffs noFaults page w = (Returned tt, w')
    /\ clock w' = clock w + iterations page w
    /\ untouched w w'.
Proof.
  destruct (loadLoop_leaves maxTries 0 0 w)
    as (w1 & cs & E & T & _ & C & _ & U & _).
  assert (It : iterations page w = naps 800 cs).
  { unfold iterations.
    rewrite (proj2 (loadAllDiffs_after_loop page w w1 E)), T, naps_app. lia. }
  unfold loadAllDiffs.
  rewrite (bindR_returned _ _ _ _ _ E).
  rewrite (bindR_returned _ _ _ _ _ (host_noFaults (ScrollTo false) w1)).
  unfold modify. eexists. split; [reflexivity|].
  cbn [clock withDisplay withTrace]. split; [lia | exact U].
Qed.

(** X21: the page loader never makes fewer than 3 iterations, so it waits
    at least 3 times 800 ms even on a page that does not change: on a page
    that shows the same number of sections at every observation it makes
    exactly 3 iterations when that number is 0, and exactly 4 otherwise. *)
Theorem loadAllDiffs_at_least_three (w : World) :
  3 <= iterations page w
  /\ (forall count,
        (forall k, length (sections page (clock w + S k)) = count) ->
        iterations page w = if count =? 0 then 3 else 4).
Proof.
  destruct (loadLoop_counts page (clock w) maxTries 0 w)
    as (w1 & d & E & Hd & Hle & Hall & Hfirst); [lia | cbn; lia |].
  destruct (loadAllDiffs_after_loop page w w1 E) as [_ Hn].
  assert (It : iterations page w = d) by (unfold iterations; rewrite Hn, Hd; lia).
  split; [exact (proj1 (iterations_range w))|].
  rewrite It.
  - intros count Hc.
    assert (O : forall k, observed page (clock w) (S k) = count)
      by (intros k; cbn [observed]; apply Hc).
    destruct (Nat.eqb_spec count 0) as [->|Hne].
    + assert (S3 : forall k, streak page (clock w) k = k).
      { induction k as [|k IH]; [reflexivity|].
        cbn [streak]. rewrite O.
        replace (observed page (clock w) k) with 0
          by (destruct k; [reflexivity | now rewrite O]).
        cbn. now rewrite IH. }
      rewrite (Hfirst 3); [lia | unfold maxTries; lia | rewrite S3; lia |].
      intros j Hj. rewrite S3. lia.
    + assert (S1 : streak page (clock w) 1 = 0).
      { cbn [streak]. rewrite O. cbn [observed].
        destruct (Nat.eqb_spec count 0); [contradiction | reflexivity]. }
      assert (Sk : forall k, streak page (clock w) (S (S k)) = S (streak page (clock w) (S k))).
      { intros k. cbn [streak]. rewrite !O, Nat.eqb_refl. reflexivity. }
      rewrite (Hfirst 4); [lia | unfold maxTries; lia | rewrite !Sk, S1; lia |].
      intros j Hj.
      destruct j as [|[|[|[|j]]]]; rewrite ?Sk, ?S1; cbn [streak]; lia.
Qed.

End MorePageLoader.

Lemma loadAllDiffs_at_least_three_witness :
  iterations (Sample.pageOf (fun _ => [])) constructed = 3
  /\ iterations Sample.twoFiles constructed = 4.
Proof.
  split.
  - apply (proj2 (loadAllDiffs_at_least_three (Sample.pageOf (fun _ => [])) constructed) 0).
    reflexivity.
  - apply (proj2 (loadAllDiffs_at_least_three Sample.twoFiles constructed) 2).
    reflexivity.
Defined.


(* ================================================================== *)
(** ** A triggered run in which nothing throws *)

(** X22: a triggered run in which nothing throws returns and leaves the
    exporter idle, with one more saved file: the archive, under the name
    made from the page's path.  The sections it exports are the ones the
    page shows when loading is over, between 3 and 50 waits after the
    click, not the ones it showed when the button was clicked; their
    records are taken from that moment on and written, in document order,
    into the archive as it was before the click. *)
Theorem click_exports_what_loading_left (page : Page) (w : World) :
  exists w' t,
    handleExportClick noFaults page w = (Returned tt, w')
    /\ t = clock w + iterations page (clicked w)
    /\ clock w + 3 <= t <= clock w + maxTries
    /\ idle w'
    /\ downloads w' = downloads w ++ [(archiveName (pathname page), zipFiles w')]
    /\ zipFiles w'
       = fold_left putEntry
           (map entryOf (produced (extractAll (sections page t) t)))
           (zipFiles w)
    /\ t <= clock w' <= t + 5 * length (sections page t).
Proof.
  assert (E : handleExportClick noFaults page w
              = bindR (loadAllDiffs noFaults page) (fun _ => exportDiffs noFaults page)
                  (clicked w)) by reflexivity.
  destruct (loadAllDiffs_noFaults_any page (clicked w)) as (w1 & L & C1 & _ & Z1 & D1).
  pose proof (iterations_range page (clicked w)) as R.
  destruct (exportBody_noFaults_any page w1) as (w2 & B & Z2 & _ & C2 & _).
  pose proof (exportBody_outcome noFaults page w1) as O. rewrite B in O.
  rewrite E, (bindR_returned _ _ _ _ _ L).
  unfold exportDiffs, tryCatchFinally. rewrite B. cbn [modify].
  change (clock (clicked w)) with (clock w) in C1.
  change (zipFiles (clicked w)) with (zipFiles w) in Z1.
  change (downloads (clicked w)) with (downloads w) in D1.
  eexists. exists (clock w + iterations page (clicked w)).
  split; [reflexivity|]. split; [reflexivity|]. split; [lia|].
  cbn [downloads zipFiles clock withDisplay withDisabled].
  rewrite <- C1.
  split; [split; reflexivity|].
  split; [rewrite O, D1; reflexivity|].
  split; [rewrite Z2, Z1; reflexivity | exact C2].
Qed.


(* ================================================================== *)
(** ** The text of an element and of the elements inside it *)

Lemma concat_empty_cons (x : string) (xs : list string) :
  String.concat EmptyString (x :: xs) = (x ++ String.concat EmptyString xs)%string.
Proof.
  destruct xs as [|y ys]; cbn [String.concat].
  - clear. induction x as [|c x IH]; cbn; [reflexivity | now rewrite <- IH].
  - reflexivity.
Qed.

Lemma nodeText_Elem (t : string) (cl : list string) (kids : list Dom.Node) :
  Dom.nodeText (Dom.Elem t cl kids)
  = String.concat EmptyString (map Dom.nodeText kids).
Proof.
  cbn [Dom.nodeText].
  induction kids as [|k kids IH]; [reflexivity|].
  cbn [map]. rewrite concat_empty_cons, <- IH. reflexivity.
Qed.

(** The text of an element is part of the text of every node it is in. *)
Lemma walk_text :
  forall (n : Dom.Node) (anc : list Dom.Head) (el : Dom.Element),
    In el (Dom.walk anc n) ->
    exists pre post, Dom.nodeText n = (pre ++ Dom.textContent el ++ post)%string.
Proof.
  fix IH 1. intros [data | t cl kids] anc el Hin.
  - destruct Hin.
  - cbn [Dom.walk] in Hin. destruct Hin as [<- | Hin].
    + exists EmptyString, EmptyString.
      unfold Dom.textContent. cbn [Dom.children append].
      rewrite nodeText_Elem.
      generalize (String.concat EmptyString (map Dom.nodeText kids)) as s.
      induction s as [|c s IHs]; cbn; [reflexivity | now rewrite <- IHs].
    + rewrite nodeText_Elem.
      revert Hin.
      generalize ({| Dom.htag := t; Dom.hclasses := cl |} :: anc) as anc'.
      induction kids as [|k kids IHk]; intros anc' Hin.
      * destruct Hin.
      * cbn [map]. rewrite concat_empty_cons.
        apply in_app_or in Hin as [Hin|Hin].
        -- destruct (IH k anc' el Hin) as (pre & post & E).
           exists pre, (post ++ String.concat EmptyString (map Dom.nodeText kids))%string.
           rewrite E, !string_append_assoc. reflexivity.
        -- destruct (IHk anc' Hin) as (pre & post & E).
           exists (Dom.nodeText k ++ pre)%string, post.
           rewrite E, !string_append_assoc. reflexivity.
Qed.

Lemma descendant_text (el d : Dom.Element) :
  In d (Dom.descendants el) ->
  exists pre post, Dom.textContent el = (pre ++ Dom.textContent d ++ post)%string.
Proof.
  unfold Dom.descendants, Dom.textContent at 1.
  generalize (Dom.head el :: Dom.above el) as anc.
  induction (Dom.children el) as [|k kids IH]; intros anc Hin.
  - destruct Hin.
  - cbn [flat_map map] in *. rewrite concat_empty_cons.
    apply in_app_or in Hin as [Hin|Hin].
    + destruct (walk_text k anc d Hin) as (pre & post & E).
      exists pre, (post ++ String.concat EmptyString (map Dom.nodeText kids))%string.
      rewrite E, !string_append_assoc. reflexivity.
    + destruct (IH anc Hin) as (pre & post & E).
      exists (Dom.nodeText k ++ pre)%string, post.
      rewrite E, !string_append_assoc. reflexivity.
Qed.

Lemma querySelector_descendant (sel : Dom.Selector) (el d : Dom.Element) :
  Dom.querySelector sel el = Some d -> In d (Dom.descendants el).
Proof.
  unfold Dom.querySelector, Dom.querySelectorAll. intros H.
  assert (Hin : In d (filter (Dom.matches sel) (Dom.descendants el))).
  { destruct (filter _ _) as [|x l]; [discriminate|].
    injection H as ->. now left. }
  now apply filter_In in Hin.
Qed.

Lemma prefix_append (k s post : string) :
  String.prefix k s = true -> String.prefix k (s ++ post) = true.
Proof.
  revert s. induction k as [|a k IH]; intros s H;
    [now destruct (s ++ post)%string|].
  destruct s as [|b s]; [discriminate|].
  cbn in *. destruct (Ascii.ascii_dec a b); [now apply IH | discriminate].
Qed.

Lemma includes_prefix (k s : string) :
  String.prefix k s = true -> JS.includes k s = true.
Proof. intros H. destruct s; cbn [JS.includes]; now rewrite H. Qed.

Lemma includes_append_r (k s post : string) :
  JS.includes k s = true -> JS.includes k (s ++ post) = true.
Proof.
  induction s as [|c s IH]; cbn [JS.includes]; intros H.
  - rewrite orb_false_r in H. apply includes_prefix.
    exact (prefix_append k EmptyString post H).
  - apply orb_true_iff in H as [H|H].
    + apply includes_prefix. exact (prefix_append k (String c s) post H).
    + cbn [append JS.includes]. rewrite (IH H). apply orb_true_r.
Qed.

Lemma includes_append_l (k pre s : string) :
  JS.includes k s = true -> JS.includes k (pre ++ s) = true.
Proof.
  intros H. induction pre as [|c pre IH]; [exact H|].
  cbn [append JS.includes]. rewrite IH. apply orb_true_r.
Qed.

Lemma toLowerCase_append (a b : string) :
  JS.toLowerCase (a ++ b) = (JS.toLowerCase a ++ JS.toLowerCase b)%string.
Proof. induction a as [|c a IH]; cbn; [reflexivity | now rewrite IH]. Qed.

(** A text found in an element is found in every element around it. *)
Lemma includes_descendant (k : string) (el d : Dom.Element) :
  In d (Dom.descendants el) ->
  JS.includes k (JS.toLowerCase (Dom.textContent d)) = true ->
  JS.includes k (JS.toLowerCase (Dom.textContent el)) = true.
Proof.
  intros Hin H. destruct (descendant_text el d Hin) as (pre & post & ->).
  rewrite !toLowerCase_append.
  apply includes_append_l, includes_append_r, H.
Qed.

(** X23: a section is judged new exactly when it has a [.file-info] or
    [.file-header] element and either the first label inside the first of
    them has [added] in its lower-cased text, or [new file] is in the
    lower-cased text of that element; the test of the label for
    [new file] adds nothing, because the label's text is part of the
    element's text.  So [new file] anywhere inside that element, for
    instance in the file's name, makes the section a new file. *)
Theorem isNewFile_by_header_text (file : Live) (t : nat) :
  value (isNewFile file t)
  = match Dom.querySelector selInfo (file t) with
    | None => false
    | Some info =>
        match Dom.querySelector selLabel info with
        | Some badge => JS.includes "added" (JS.toLowerCase (Dom.textContent badge))
        | None => false
        end
        || JS.includes "new file" (JS.toLowerCase (Dom.textContent info))
    end
  /\ (forall info d,
        Dom.querySelector selInfo (file t) = Some info ->
        In d (Dom.descendants info) ->
        JS.includes "new file" (JS.toLowerCase (Dom.textContent d)) = true ->
        value (isNewFile file t) = true).
Proof.
  assert (V : value (isNewFile file t)
              = match Dom.querySelector selInfo (file t) with
                | None => false
                | Some info =>
                    match Dom.querySelector selLabel info with
                    | Some badge =>
                        JS.includes "added" (JS.toLowerCase (Dom.textContent badge))
                    | None => false
                    end
                    || JS.includes "new file" (JS.toLowerCase (Dom.textContent info))
                end).
  { unfold isNewFile. probe_step.
    destruct (Dom.querySelector selInfo (file t)) as [info|]; [|reflexivity].
    probe_step. unfold still.
    destruct (Dom.querySelector selLabel info) as [badge|] eqn:Hb.
    - pose proof (includes_descendant "new file" info badge
                    (querySelector_descendant _ _ _ Hb)) as Sub.
      destruct (JS.includes "new file" (JS.toLowerCase (Dom.textContent badge))).
      + rewrite (Sub eq_refl), orb_true_r. reflexivity.
      + cbn [orb].
        destruct (JS.includes "added" _); [reflexivity|].
        destruct (JS.includes "new file" _); reflexivity.
    - change (JS.includes "new file" EmptyString || JS.includes "added" EmptyString)
        with false.
      cbn [orb]. destruct (JS.includes "new file" _); reflexivity. }
  split; [exact V|].
  intros info d Hi Hd Hk. rewrite V, Hi.
  rewrite (includes_descendant "new file" info d Hd Hk). apply orb_true_r.
Qed.


Lemma isNewFile_by_header_text_witness :
  value (isNewFile (still Sample.newFileNotes) 0) = true.
Proof.
  eapply (proj2 (isNewFile_by_header_text (still Sample.newFileNotes) 0)).
  - reflexivity.
  - right. left. reflexivity.
  - reflexivity.
Defined.


(* ================================================================== *)
(** ** The path of a record *)







